(** * Vocabulary tables of texar/data/vocabulary.py

    A shallow embedding of [SpecialTokens], [_make_defaultdict] and the
    class [Vocab], followed by the properties of the built table:
    the ids of the special tokens, the two maps, the lookups and the size.

    Python values are modelled as follows.
    - [str] is [string]; [int] (and the [numpy.int64] of [np.arange]) is [Z].
    - [collections.defaultdict] is a record of the value its factory
      returns and of a [gmap] holding the items.  [d[k] = v] is
      [setitem], [d[k]] is [getitem], which stores the default under a
      missing key before returning it, so it returns the dictionary too.
    - an exception is a value of [exception]; a call that may raise
      returns a [result].
    - the methods of a built [Vocab] run in a state monad over the object,
      since the id accessors read a [defaultdict] with [d[k]]. *)

From stdpp Require Import gmap strings list fin_maps fin_sets.

Local Open Scope string_scope.
Local Open Scope Z_scope.
Local Open Scope list_scope.

(** ** Python run-time values *)

Inductive exception : Type :=
  | ValueError (msg : string).

Inductive result (A : Type) : Type :=
  | Ok (a : A)
  | Raise (e : exception).
Arguments Ok {A} a.
Arguments Raise {A} e.

Module defaultdict.

Record t (K : Type) `{Countable K} (V : Type) : Type := Make {
  default_factory : V;
  items : gmap K V
}.
Arguments Make {K _ _ V} default_factory items.
Arguments default_factory {K _ _ V} _.
Arguments items {K _ _ V} _.

Section ops.
Context {K : Type} `{Countable K} {V : Type}.

(** [defaultdict(lambda: default_value)] *)
Definition new (default_value : V) : t K V := Make default_value ∅.

(** [d[k] = v] *)
Definition setitem (d : t K V) (k : K) (v : V) : t K V :=
  Make (default_factory d) (<[k := v]> (items d)).

(** [d[k]]: a missing key is first bound to the default. *)
Definition getitem (d : t K V) (k : K) : V * t K V :=
  match items d !! k with
  | Some v => (v, d)
  | None => (default_factory d, setitem d k (default_factory d))
  end.

(** [len(d)] *)
Definition len (d : t K V) : nat := size (items d).
End ops.

End defaultdict.

Abbreviation defaultdict := defaultdict.t.

(** [np.arange(n)] *)
Definition arange (n : nat) : list Z := seqZ 0 (Z.of_nat n).

(** ** The module *)

Module SpecialTokens.
Definition PAD : string := "<PAD>".
Definition BOS : string := "<BOS>".
Definition EOS : string := "<EOS>".
Definition UNK : string := "<UNK>".
End SpecialTokens.

(** The loop [for k, v in zip(keys, values): dict_[k] = v], run from
    the left, so that a key met again is bound again. *)
Definition _make_defaultdict {K : Type} `{Countable K} {V : Type}
    (keys : list K) (values : list V) (default_value : V) : defaultdict K V :=
  foldl (λ dict_ kv, defaultdict.setitem dict_ kv.1 kv.2)
        (defaultdict.new default_value) (zip keys values).

(** A nested list of leaves of type [A]: what the lookups take and return. *)
#[local] Unset Elimination Schemes.
Inductive nested (A : Type) : Type :=
  | Scalar (a : A)
  | Sequence (l : list (nested A)).
#[local] Set Elimination Schemes.
Arguments Scalar {A} a.
Arguments Sequence {A} l.

(** Modelled from the spec: [dict_lookup] of [texar.utils.utils], which
    [vocabulary.py] imports and which is not among the sources.  The spec
    describes it as a recursive dispatcher over scalars and sequences that
    recurses into the elements of a sequence and, at a leaf, returns the
    mapped value if the key is present and the given default otherwise.
    It reads the dictionary without changing it. *)
Fixpoint dict_lookup {K : Type} `{Countable K} {V : Type}
    (dict_ : defaultdict K V) (keys : nested K) (default_ : V) : nested V :=
  match keys with
  | Scalar k =>
      Scalar (match defaultdict.items dict_ !! k with
              | Some v => v
              | None => default_
              end)
  | Sequence l => Sequence (List.map (λ x, dict_lookup dict_ x default_) l)
  end.

Module Vocab.

Record t : Type := Make {
  _filename : string;
  _pad_token : string;
  _bos_token : string;
  _eos_token : string;
  _unk_token : string;
  _id_to_token_map_py : defaultdict Z string;
  _token_to_id_map_py : defaultdict string Z
}.

(** [load], from the point where [vocab] holds the stripped lines of the
    file.  Of [self] it reads the four token attributes only, the ones
    [__init__] has set when it calls [load]. *)
Definition load (_pad_token _bos_token _eos_token _unk_token : string)
    (vocab : list string)
  : result (defaultdict Z string * defaultdict string Z) :=
  if decide (_bos_token ∈ vocab) then
    Raise (ValueError
      ("Special begin-of-seq token already exists in the vocabulary: '"
       +:+ _bos_token +:+ "'"))
  else if decide (_eos_token ∈ vocab) then
    Raise (ValueError
      ("Special end-of-seq token already exists in the vocabulary: '"
       +:+ _eos_token +:+ "'"))
  else if decide (_unk_token ∈ vocab) then
    Raise (ValueError
      ("Special UNK token already exists in the vocabulary: '"
       +:+ _unk_token +:+ "'"))
  else if decide (_pad_token ∈ vocab) then
    Raise (ValueError
      ("Special padding token already exists in the vocabulary: '"
       +:+ _pad_token +:+ "'"))
  else
    let vocab := [_pad_token; _bos_token; _eos_token; _unk_token] ++ vocab in
    let unk_token_idx := 3 in
    let vocab_size := length vocab in
    let vocab_idx := arange vocab_size in
    let id_to_token_map_py :=
      _make_defaultdict vocab_idx vocab _unk_token in
    let token_to_id_map_py :=
      _make_defaultdict vocab vocab_idx unk_token_idx in
    Ok (id_to_token_map_py, token_to_id_map_py).

(** [Vocab(filename, pad_token, bos_token, eos_token, unk_token)], given
    the stripped lines of [filename]. *)
Definition __init__ (filename : string) (lines : list string)
    (pad_token bos_token eos_token unk_token : string) : result t :=
  match load pad_token bos_token eos_token unk_token lines with
  | Raise e => Raise e
  | Ok (id_to_token, token_to_id) =>
      Ok (Make filename pad_token bos_token eos_token unk_token
               id_to_token token_to_id)
  end.

(** [Vocab(filename)] with the default special tokens. *)
Definition init_default (filename : string) (lines : list string) : result t :=
  __init__ filename lines SpecialTokens.PAD SpecialTokens.BOS
           SpecialTokens.EOS SpecialTokens.UNK.

(** *** Methods of a built object *)

Definition M (A : Type) : Type := t → A * t.

#[global] Instance M_ret : MRet M := λ A a self, (a, self).
#[global] Instance M_bind : MBind M :=
  λ A B f m self, let '(a, self') := m self in f a self'.

Definition gets {A : Type} (f : t → A) : M A := λ self, (f self, self).

(** [self.token_to_id_map_py[token]]: the dictionary the read may have
    extended is the one [self] keeps. *)
Definition token_to_id_getitem (token : string) : M Z :=
  λ self,
    let '(v, d) := defaultdict.getitem (_token_to_id_map_py self) token in
    (v, Make (_filename self) (_pad_token self) (_bos_token self)
             (_eos_token self) (_unk_token self)
             (_id_to_token_map_py self) d).

Definition id_to_token_map_py : M (defaultdict Z string) :=
  gets _id_to_token_map_py.
Definition token_to_id_map_py : M (defaultdict string Z) :=
  gets _token_to_id_map_py.

Definition size : M nat :=
  d ← token_to_id_map_py ; mret (defaultdict.len d).

Definition bos_token : M string := gets _bos_token.
Definition bos_token_id : M Z :=
  tok ← gets _bos_token ; token_to_id_getitem tok.

Definition eos_token : M string := gets _eos_token.
Definition eos_token_id : M Z :=
  tok ← gets _eos_token ; token_to_id_getitem tok.

Definition unk_token : M string := gets _unk_token.
Definition unk_token_id : M Z :=
  tok ← gets _unk_token ; token_to_id_getitem tok.

Definition pad_token : M string := gets _pad_token.
Definition pad_token_id : M Z :=
  tok ← gets _pad_token ; token_to_id_getitem tok.

Definition special_tokens : M (list string) :=
  λ self, ([_pad_token self; _bos_token self; _eos_token self;
            _unk_token self], self).

Definition map_ids_to_tokens_py (ids : nested Z) : M (nested string) :=
  d ← id_to_token_map_py;
  unk ← unk_token;
  mret (dict_lookup d ids unk).

(** The first argument is a reference to the dictionary of [self], and
    [self.unk_token_id] is evaluated before the call: [dict_lookup]
    sees the dictionary as that read left it. *)
Definition map_tokens_to_ids_py (tokens : nested string) : M (nested Z) :=
  unk_id ← unk_token_id;
  d ← token_to_id_map_py;
  mret (dict_lookup d tokens unk_id).

End Vocab.

(** ** Induction on nested lists *)

Section nested_ind.
Context {A : Type} (P : nested A → Prop).
Hypothesis HScalar : ∀ a, P (Scalar a).
Hypothesis HSequence : ∀ l, Forall P l → P (Sequence l).

Fixpoint nested_ind (x : nested A) : P x :=
  match x with
  | Scalar a => HScalar a
  | Sequence l =>
      HSequence l
        ((fix go (l : list (nested A)) : Forall P l :=
            match l with
            | [] => Forall_nil_2 P
            | y :: l' => Forall_cons_2 P y l' (nested_ind y) (go l')
            end) l)
  end.
End nested_ind.

(** The shape of a nested list, and its leaves from left to right. *)
Fixpoint shape {A : Type} (x : nested A) : nested unit :=
  match x with
  | Scalar _ => Scalar ()
  | Sequence l => Sequence (List.map shape l)
  end.

Fixpoint leaves {A : Type} (x : nested A) : list A :=
  match x with
  | Scalar a => [a]
  | Sequence l => concat (List.map leaves l)
  end.

(** [n] is the last position of [l] that holds [t]. *)
Definition last_position {A : Type} (l : list A) (t : A) (n : nat) : Prop :=
  l !! n = Some t ∧ ∀ j, (n < j)%nat → l !! j ≠ Some t.

(** The number of distinct strings of a listing. *)
Definition count_distinct (l : list string) : nat := length (remove_dups l).

(** The sequence the ids are assigned over. *)
Definition combined (pad bos eos unk : string) (lines : list string)
  : list string :=
  [pad; bos; eos; unk] ++ lines.

(** The table [__init__] returns when no check of [load] fires. *)
Definition built (filename : string) (lines : list string)
    (pad bos eos unk : string) : Vocab.t :=
  let vocab := combined pad bos eos unk lines in
  Vocab.Make filename pad bos eos unk
    (_make_defaultdict (arange (length vocab)) vocab unk)
    (_make_defaultdict vocab (arange (length vocab)) 3).

(** ** The dictionaries [_make_defaultdict] builds *)

Lemma arange_S n : arange (S n) = arange n ++ [Z.of_nat n].
Proof. unfold arange. by rewrite seqZ_S, Z.add_0_l. Qed.

Lemma length_arange n : length (arange n) = n.
Proof. unfold arange. rewrite length_seqZ. lia. Qed.

Section make_defaultdict.
Context {K : Type} `{Countable K} {V : Type}.
Implicit Types (keys : list K) (values : list V).

Lemma foldl_setitem_default (l : list (K * V)) (d : defaultdict K V) :
  defaultdict.default_factory
    (foldl (λ dict_ kv, defaultdict.setitem dict_ kv.1 kv.2) d l)
  = defaultdict.default_factory d.
Proof.
  revert d. induction l as [|kv l IH]; intros d; simpl; [done|].
  by rewrite IH.
Qed.

Lemma make_defaultdict_default keys values dflt :
  defaultdict.default_factory (_make_defaultdict keys values dflt) = dflt.
Proof. unfold _make_defaultdict. by rewrite foldl_setitem_default. Qed.

Lemma make_defaultdict_snoc keys values k v dflt :
  length keys = length values →
  _make_defaultdict (keys ++ [k]) (values ++ [v]) dflt
  = defaultdict.setitem (_make_defaultdict keys values dflt) k v.
Proof.
  intros Hlen. unfold _make_defaultdict.
  rewrite zip_with_app by done. simpl. by rewrite foldl_snoc.
Qed.

End make_defaultdict.

(** Keys taken from a list, values their positions. *)
Section positions.
Context {K : Type} `{Countable K}.
Implicit Types (keys : list K).

Lemma positions_snoc keys k dflt :
  _make_defaultdict (keys ++ [k]) (arange (length (keys ++ [k]))) dflt
  = defaultdict.setitem
      (_make_defaultdict keys (arange (length keys)) dflt)
      k (Z.of_nat (length keys)).
Proof.
  rewrite length_app, Nat.add_1_r, arange_S.
  apply make_defaultdict_snoc. by rewrite length_arange.
Qed.

Lemma positions_dom keys dflt :
  dom (defaultdict.items
         (_make_defaultdict keys (arange (length keys)) dflt))
  = (list_to_set keys : gset K).
Proof.
  induction keys as [|k keys IH] using rev_ind; [apply dom_empty_L|].
  rewrite positions_snoc. simpl.
  rewrite dom_insert_L, IH, list_to_set_snoc_L. apply (comm_L (∪)).
Qed.

Lemma positions_lookup keys dflt k i :
  defaultdict.items
    (_make_defaultdict keys (arange (length keys)) dflt) !! k = Some i
  ↔ ∃ n, i = Z.of_nat n ∧ last_position keys k n.
Proof.
  revert i. induction keys as [|k' keys IH] using rev_ind; intros i.
  { simpl. rewrite lookup_empty. split; [done|].
    by intros (n & _ & Hn & _). }
  rewrite positions_snoc. simpl. rewrite lookup_insert.
  destruct (decide (k' = k)) as [->|Hne].
  - split.
    + intros [= <-]. exists (length keys). split; [done|]. split.
      * by rewrite list_lookup_middle.
      * intros j Hj. rewrite lookup_ge_None_2; [done|].
        rewrite length_app. simpl. lia.
    + intros (n & -> & Hn & Hlast). f_equal. f_equal.
      destruct (decide (n = length keys)) as [|Hn']; [done|].
      exfalso. apply (Hlast (length keys)).
      * apply lookup_lt_Some in Hn. rewrite length_app in Hn.
        simpl in Hn. lia.
      * by rewrite list_lookup_middle.
  - rewrite IH. split.
    + intros (n & -> & Hn & Hlast). exists n. split; [done|].
      pose proof (lookup_lt_Some _ _ _ Hn) as Hlt. split.
      * by rewrite lookup_app_l.
      * intros j Hj. destruct (decide (j < length keys)%nat).
        -- rewrite lookup_app_l by done. by apply Hlast.
        -- destruct (decide (j = length keys)) as [->|].
           ++ rewrite list_lookup_middle by done. congruence.
           ++ rewrite lookup_ge_None_2; [done|].
              rewrite length_app. simpl. lia.
    + intros (n & -> & Hn & Hlast). exists n. split; [done|].
      assert (n < length keys)%nat as Hlt.
      { apply lookup_lt_Some in Hn as Hn'. rewrite length_app in Hn'.
        simpl in Hn'. destruct (decide (n = length keys)) as [->|]; [|lia].
        rewrite list_lookup_middle in Hn by done. congruence. }
      split.
      * by rewrite lookup_app_l in Hn.
      * intros j Hj Hj'. apply (Hlast j Hj).
        rewrite lookup_app_l; [done|]. by eapply lookup_lt_Some.
Qed.

Lemma positions_lookup_None keys dflt k :
  defaultdict.items
    (_make_defaultdict keys (arange (length keys)) dflt) !! k = None
  ↔ k ∉ keys.
Proof.
  rewrite <-not_elem_of_dom, positions_dom. by rewrite elem_of_list_to_set.
Qed.

Lemma positions_len keys dflt :
  defaultdict.len (_make_defaultdict keys (arange (length keys)) dflt)
  = length (remove_dups keys).
Proof.
  unfold defaultdict.len. rewrite <-size_dom, positions_dom.
  rewrite <-(size_list_to_set (C := gset K) (remove_dups keys))
    by apply NoDup_remove_dups.
  f_equal. apply set_eq. intros x.
  by rewrite !elem_of_list_to_set, elem_of_remove_dups.
Qed.

End positions.

(** Keys the positions of a list, values taken from it. *)
Section entries.
Context {V : Type}.
Implicit Types (values : list V).

Lemma entries_snoc values v dflt :
  _make_defaultdict (arange (length (values ++ [v]))) (values ++ [v]) dflt
  = defaultdict.setitem
      (_make_defaultdict (arange (length values)) values dflt)
      (Z.of_nat (length values)) v.
Proof.
  rewrite length_app, Nat.add_1_r, arange_S.
  apply make_defaultdict_snoc. by rewrite length_arange.
Qed.

Lemma entries_lookup values dflt (i : Z) :
  defaultdict.items
    (_make_defaultdict (arange (length values)) values dflt) !! i
  = if decide (0 ≤ i) then values !! Z.to_nat i else None.
Proof.
  induction values as [|v values IH] using rev_ind.
  { simpl. rewrite lookup_empty. by case_decide. }
  rewrite entries_snoc. simpl. rewrite lookup_insert.
  destruct (decide (Z.of_nat (length values) = i)) as [<-|Hne].
  - rewrite decide_True by lia. rewrite Nat2Z.id.
    by rewrite list_lookup_middle.
  - rewrite IH. case_decide; [|done].
    destruct (decide (Z.to_nat i < length values)%nat).
    + by rewrite lookup_app_l.
    + rewrite !lookup_ge_None_2; [done| |lia].
      rewrite length_app. simpl. lia.
Qed.
End entries.

(** ** Construction *)

Lemma init_Ok filename lines pad bos eos unk v :
  Vocab.__init__ filename lines pad bos eos unk = Ok v ↔
  ((bos ∉ lines) ∧ (eos ∉ lines) ∧ (unk ∉ lines) ∧ (pad ∉ lines))
  ∧ v = built filename lines pad bos eos unk.
Proof.
  unfold Vocab.__init__, Vocab.load.
  repeat case_decide;
    (split; [intros Heq; by simplify_eq | by intros [(?&?&?&?) ->]]).
Qed.

Lemma last_position_unique {A : Type} (l : list A) t n m :
  last_position l t n → last_position l t m → n = m.
Proof.
  intros [Hn Hln] [Hm Hlm].
  destruct (Nat.lt_trichotomy n m) as [Hlt|[->|Hlt]]; [|done|].
  - by destruct (Hln m Hlt).
  - by destruct (Hlm n Hlt).
Qed.

Lemma last_position_app_l {A : Type} (l k : list A) t n :
  t ∉ k → last_position l t n → last_position (l ++ k) t n.
Proof.
  intros Hk [Hn Hlast]. pose proof (lookup_lt_Some _ _ _ Hn) as Hlt. split.
  - by rewrite lookup_app_l.
  - intros j Hj Hj'. destruct (decide (j < length l)%nat).
    + rewrite lookup_app_l in Hj' by done. by apply (Hlast j).
    + rewrite lookup_app_r in Hj' by lia.
      apply Hk. by eapply list_elem_of_lookup_2.
Qed.

Lemma last_position_app_r {A : Type} (l k : list A) t n :
  last_position k t n → last_position (l ++ k) t (length l + n).
Proof.
  intros [Hn Hlast]. split.
  - rewrite lookup_app_r by lia. by replace (length l + n - length l)%nat with n by lia.
  - intros j Hj. rewrite lookup_app_r by lia. apply Hlast. lia.
Qed.

Lemma last_position_exists `{EqDecision A} (l : list A) t :
  t ∈ l → ∃ n, last_position l t n.
Proof.
  induction l as [|x l IH] using rev_ind; [by intros ?%elem_of_nil|].
  destruct (decide (x = t)) as [->|Hne].
  - intros _. exists (length l). split; [by rewrite list_lookup_middle|].
    intros j Hj. rewrite lookup_ge_None_2; [done|].
    rewrite length_app. simpl. lia.
  - intros [Hin|Hin%list_elem_of_singleton]%elem_of_app; [|congruence].
    destruct (IH Hin) as [n Hn]. exists n.
    replace n with (n + 0)%nat in Hn |- * by lia.
    rewrite Nat.add_0_r in *.
    apply last_position_app_l; [|done]. by intros ?%list_elem_of_singleton.
Qed.

(** Reading the token dictionary of a built table at a token it holds
    returns its last position and leaves the table as it was. *)
Lemma getitem_built filename lines pad bos eos unk tok n :
  last_position (combined pad bos eos unk lines) tok n →
  Vocab.token_to_id_getitem tok (built filename lines pad bos eos unk)
  = (Z.of_nat n, built filename lines pad bos eos unk).
Proof.
  intros Hn. unfold Vocab.token_to_id_getitem, defaultdict.getitem.
  assert (defaultdict.items
            (Vocab._token_to_id_map_py (built filename lines pad bos eos unk))
          !! tok = Some (Z.of_nat n)) as ->; [|done].
  unfold built. cbv zeta. unfold Vocab._token_to_id_map_py.
  apply positions_lookup. by exists n.
Qed.

Lemma unk_last_position pad bos eos unk lines :
  unk ∉ lines → last_position (combined pad bos eos unk lines) unk 3.
Proof.
  intros Hunk. apply (last_position_app_l [pad; bos; eos; unk]); [done|].
  split; [done|]. intros [|[|[|[|j]]]] Hj; (lia || done).
Qed.

Lemma unk_token_id_built filename lines pad bos eos unk :
  unk ∉ lines →
  Vocab.unk_token_id (built filename lines pad bos eos unk)
  = (3, built filename lines pad bos eos unk).
Proof.
  intros Hunk. unfold Vocab.unk_token_id, mbind, Vocab.M_bind, Vocab.gets.
  simpl Vocab._unk_token.
  by rewrite (getitem_built _ _ _ _ _ _ _ 3) by by apply unk_last_position.
Qed.

Lemma NoDup_four {A : Type} (a b c d : A) :
  NoDup [a; b; c; d] ↔ a ≠ b ∧ a ≠ c ∧ a ≠ d ∧ b ≠ c ∧ b ≠ d ∧ c ≠ d.
Proof.
  rewrite !NoDup_cons, !not_elem_of_cons.
  pose proof (NoDup_nil_2 (A := A)). pose proof (not_elem_of_nil a).
  pose proof (not_elem_of_nil b). pose proof (not_elem_of_nil c).
  pose proof (not_elem_of_nil d). tauto.
Qed.

Lemma NoDup_default_specials :
  NoDup [SpecialTokens.PAD; SpecialTokens.BOS;
         SpecialTokens.EOS; SpecialTokens.UNK].
Proof. by apply NoDup_four. Qed.

Lemma id_accessors_built (v : Vocab.t) :
  Vocab.pad_token_id v = Vocab.token_to_id_getitem (Vocab._pad_token v) v
  ∧ Vocab.bos_token_id v = Vocab.token_to_id_getitem (Vocab._bos_token v) v
  ∧ Vocab.eos_token_id v = Vocab.token_to_id_getitem (Vocab._eos_token v) v
  ∧ Vocab.unk_token_id v = Vocab.token_to_id_getitem (Vocab._unk_token v) v.
Proof. done. Qed.


(** ** The ids of the special tokens *)




(** ** The two maps *)

(** C2: a successful construction numbers the sequence
    [pad; bos; eos; unk] followed by the lines from 0 in that order: the
    id map binds exactly the positions of the sequence, each to the string
    at that position, so line [j] sits under id [4 + j]; the token map
    binds a string to the position that holds it last. *)
Theorem load_numbers_combined_sequence filename lines pad bos eos unk v :
  Vocab.__init__ filename lines pad bos eos unk = Ok v →
  let vocab := [pad; bos; eos; unk] ++ lines in
  let id_to_token := defaultdict.items (Vocab._id_to_token_map_py v) in
  let token_to_id := defaultdict.items (Vocab._token_to_id_map_py v) in
  (∀ i : Z, id_to_token !! i
            = if decide (0 ≤ i) then vocab !! Z.to_nat i else None)
  ∧ (∀ (j : nat) tok, lines !! j = Some tok →
       id_to_token !! (4 + Z.of_nat j) = Some tok)
  ∧ (∀ tok i, token_to_id !! tok = Some i
       ↔ ∃ n, i = Z.of_nat n ∧ last_position vocab tok n)
  ∧ (∀ tok, tok ∈ lines →
       ∃ j, last_position lines tok j
            ∧ token_to_id !! tok = Some (4 + Z.of_nat j)).
Proof.
  intros [_ ->]%init_Ok vocab. unfold built. fold vocab. cbv zeta.
  unfold Vocab._id_to_token_map_py, Vocab._token_to_id_map_py.
  assert (∀ i : Z,
    defaultdict.items
      (_make_defaultdict (arange (length vocab)) vocab unk) !! i
    = if decide (0 ≤ i) then vocab !! Z.to_nat i else None) as Hid
    by apply entries_lookup.
  split; [done|]. split; [|split].
  - intros j tok Hj. rewrite Hid, decide_True by lia.
    replace (Z.to_nat (4 + Z.of_nat j)) with (4 + j)%nat by lia. done.
  - intros tok i. apply positions_lookup.
  - intros tok [j Hj]%last_position_exists. exists j. split; [done|].
    apply positions_lookup. exists (4 + j)%nat. split; [lia|].
    by apply (last_position_app_r [pad; bos; eos; unk]).
Qed.

Lemma load_numbers_combined_sequence_witness :
  ∃ v, Vocab.init_default "vocab.txt" ["cat"; "dog"; "cat"] = Ok v
       ∧ defaultdict.items (Vocab._id_to_token_map_py v) !! 4 = Some "cat"
       ∧ defaultdict.items (Vocab._id_to_token_map_py v) !! 6 = Some "cat"
       ∧ ∃ j, last_position ["cat"; "dog"; "cat"] "cat" j
              ∧ defaultdict.items (Vocab._token_to_id_map_py v) !! "cat"
                = Some (4 + Z.of_nat j).
Proof.
  eexists. split; [reflexivity|].
  destruct (load_numbers_combined_sequence "vocab.txt" ["cat"; "dog"; "cat"]
              "<PAD>" "<BOS>" "<EOS>" "<UNK>" _ eq_refl)
    as (_ & Hline & _ & Htok).
  split; [exact (Hline 0%nat "cat" eq_refl)|].
  split; [exact (Hline 2%nat "cat" eq_refl)|].
  apply Htok. by apply list_elem_of_here.
Defined.

(** ** Rejected listings *)

(** C3: when a special-token string is among the lines, construction
    raises and returns no table.  The checks run in the order begin, end,
    unknown, padding, and the error names the first of these strings that
    the listing holds. *)
Theorem init_rejects_special_token filename lines pad bos eos unk :
  pad ∈ lines ∨ bos ∈ lines ∨ eos ∈ lines ∨ unk ∈ lines →
  ∃ tok role,
    Vocab.__init__ filename lines pad bos eos unk
    = Raise (ValueError ("Special " +:+ role
                         +:+ " token already exists in the vocabulary: '"
                         +:+ tok +:+ "'"))
    ∧ tok ∈ lines
    ∧ ((role = "begin-of-seq" ∧ tok = bos)
       ∨ (role = "end-of-seq" ∧ tok = eos ∧ (bos ∉ lines))
       ∨ (role = "UNK" ∧ tok = unk ∧ (bos ∉ lines) ∧ (eos ∉ lines))
       ∨ (role = "padding" ∧ tok = pad
          ∧ (bos ∉ lines) ∧ (eos ∉ lines) ∧ (unk ∉ lines))).
Proof.
  intros Hin. unfold Vocab.__init__, Vocab.load.
  destruct (decide (bos ∈ lines)) as [Hbos|Hbos].
  { exists bos, "begin-of-seq". split; [done|]. split; [done|]. by left. }
  destruct (decide (eos ∈ lines)) as [Heos|Heos].
  { exists eos, "end-of-seq". split; [done|]. split; [done|].
    right. by left. }
  destruct (decide (unk ∈ lines)) as [Hunk|Hunk].
  { exists unk, "UNK". split; [done|]. split; [done|].
    right. right. by left. }
  destruct (decide (pad ∈ lines)) as [Hpad|Hpad].
  { exists pad, "padding". split; [done|]. split; [done|].
    right. right. by right. }
  by destruct Hin as [?|[?|[?|?]]].
Qed.

Lemma init_rejects_special_token_witness :
  Vocab.init_default "vocab.txt" ["cat"; "<BOS>"; "dog"]
  = Raise (ValueError "Special begin-of-seq token already exists in the vocabulary: '<BOS>'").
Proof.
  destruct (init_rejects_special_token "vocab.txt" ["cat"; "<BOS>"; "dog"]
              "<PAD>" "<BOS>" "<EOS>" "<UNK>")
    as (tok & role & Hraise & _ & Hrole).
  - right. left. apply list_elem_of_further, list_elem_of_here.
  - assert ("<BOS>" ∈ ["cat"; "<BOS>"; "dog"]) as Hin
      by apply list_elem_of_further, list_elem_of_here.
    destruct Hrole as [[-> ->]|[(_ & _ & Hn)|[(_ & _ & Hn & _)|(_ & _ & Hn & _)]]];
      [exact Hraise|by destruct Hn..].
Defined.

(** ** Lookups on a built table *)

Section dict_lookup.
Context {K : Type} `{Countable K} {V : Type}.

Lemma dict_lookup_Some (d : defaultdict K V) k v dflt :
  defaultdict.items d !! k = Some v →
  dict_lookup d (Scalar k) dflt = Scalar v.
Proof. intros Hk. simpl. by rewrite Hk. Qed.

Lemma dict_lookup_None (d : defaultdict K V) k dflt :
  defaultdict.items d !! k = None →
  dict_lookup d (Scalar k) dflt = Scalar dflt.
Proof. intros Hk. simpl. by rewrite Hk. Qed.

Lemma dict_lookup_Scalar (d : defaultdict K V) k dflt :
  ∃ v, dict_lookup d (Scalar k) dflt = Scalar v.
Proof. simpl. eauto. Qed.
End dict_lookup.

Lemma map_ids_to_tokens_py_eq (ids : nested Z) (v : Vocab.t) :
  Vocab.map_ids_to_tokens_py ids v
  = (dict_lookup (Vocab._id_to_token_map_py v) ids (Vocab._unk_token v), v).
Proof. done. Qed.

Lemma map_tokens_to_ids_py_built filename lines pad bos eos unk tokens :
  unk ∉ lines →
  let v := built filename lines pad bos eos unk in
  Vocab.map_tokens_to_ids_py tokens v
  = (dict_lookup (Vocab._token_to_id_map_py v) tokens 3, v).
Proof.
  intros Hunk v. unfold Vocab.map_tokens_to_ids_py, mbind, Vocab.M_bind.
  unfold v. by rewrite unk_token_id_built.
Qed.

Lemma token_of_built filename lines pad bos eos unk (i : Z) :
  let vocab := combined pad bos eos unk lines in
  defaultdict.items
    (Vocab._id_to_token_map_py (built filename lines pad bos eos unk)) !! i
  = if decide (0 ≤ i) then vocab !! Z.to_nat i else None.
Proof. apply entries_lookup. Qed.

Lemma id_of_built filename lines pad bos eos unk tok i :
  let vocab := combined pad bos eos unk lines in
  defaultdict.items
    (Vocab._token_to_id_map_py (built filename lines pad bos eos unk)) !! tok
  = Some i
  ↔ ∃ n, i = Z.of_nat n ∧ last_position vocab tok n.
Proof. apply positions_lookup. Qed.

Lemma id_of_built_None filename lines pad bos eos unk tok :
  defaultdict.items
    (Vocab._token_to_id_map_py (built filename lines pad bos eos unk)) !! tok
  = None
  ↔ tok ∉ combined pad bos eos unk lines.
Proof. apply positions_lookup_None. Qed.

(** C4: on a built table the lookup of a single string returns an id
    and leaves the table unchanged, whatever the string; for a string that
    is neither a line nor a special token the id is the one
    [unk_token_id] returns, which is 3. *)
Theorem tokens_to_ids_unknown filename lines pad bos eos unk v :
  Vocab.__init__ filename lines pad bos eos unk = Ok v →
  (∀ s, ∃ i, Vocab.map_tokens_to_ids_py (Scalar s) v = (Scalar i, v))
  ∧ Vocab.unk_token_id v = (3, v)
  ∧ (∀ s, s ∉ lines → s ∉ [pad; bos; eos; unk] →
       Vocab.map_tokens_to_ids_py (Scalar s) v
       = (Scalar (Vocab.unk_token_id v).1, v)).
Proof.
  intros [(_ & _ & Hunk & _) ->]%init_Ok.
  split; [|split].
  - intros s. rewrite map_tokens_to_ids_py_built by done.
    destruct (dict_lookup_Scalar (Vocab._token_to_id_map_py
      (built filename lines pad bos eos unk)) s 3) as [i ->]. eauto.
  - by apply unk_token_id_built.
  - intros s Hlines Hspecial.
    rewrite map_tokens_to_ids_py_built, unk_token_id_built by done.
    rewrite dict_lookup_None; [done|].
    apply id_of_built_None. unfold combined.
    by intros [?|?]%elem_of_app.
Qed.

Lemma tokens_to_ids_unknown_witness :
  ∃ v, Vocab.init_default "vocab.txt" ["cat"; "dog"] = Ok v
       ∧ Vocab.map_tokens_to_ids_py (Scalar "fish") v
         = (Scalar (Vocab.unk_token_id v).1, v)
       ∧ Vocab.unk_token_id v = (3, v).
Proof.
  eexists. split; [reflexivity|].
  destruct (tokens_to_ids_unknown "vocab.txt" ["cat"; "dog"]
              "<PAD>" "<BOS>" "<EOS>" "<UNK>" _ eq_refl)
    as (_ & Hunk & Hmiss).
  split; [|exact Hunk].
  apply Hmiss; rewrite ?not_elem_of_cons; repeat split;
    first [done | apply not_elem_of_nil].
Defined.

(** ** Size *)

Lemma remove_dups_NoDup `{EqDecision A} (l : list A) :
  NoDup l → remove_dups l = l.
Proof.
  induction 1 as [|x l Hx _ IH]; [done|]. simpl.
  destruct (decide_rel elem_of x l); [done|]. by rewrite IH.
Qed.

Lemma length_remove_dups_app `{EqDecision A} (l k : list A) :
  (∀ x, x ∈ l → x ∉ k) →
  length (remove_dups (l ++ k))
  = (length (remove_dups l) + length (remove_dups k))%nat.
Proof.
  induction l as [|x l IH]; intros Hdisj; [done|]. simpl.
  assert (∀ y, y ∈ l → y ∉ k) as Hdisj'
    by (intros y Hy; apply Hdisj; by right).
  assert (x ∉ k) as Hx by (apply Hdisj; by left).
  destruct (decide_rel elem_of x l) as [Hin|Hin],
    (decide_rel elem_of x (l ++ k)) as [Hin'|Hin']; simpl.
  - by apply IH.
  - destruct Hin'. apply elem_of_app. by left.
  - by apply elem_of_app in Hin' as [?|?].
  - by rewrite IH.
Qed.

Lemma size_built filename lines pad bos eos unk :
  Vocab.size (built filename lines pad bos eos unk)
  = (length (remove_dups (combined pad bos eos unk lines)),
     built filename lines pad bos eos unk).
Proof.
  unfold Vocab.size, mbind, Vocab.M_bind, Vocab.token_to_id_map_py.
  unfold Vocab.gets, mret, Vocab.M_ret. f_equal. apply positions_len.
Qed.

(** C7, amended: the size of a built table is the number of distinct
    special-token strings plus the number of distinct lines.  It is 4 plus
    the number of distinct lines when the four special strings are pairwise
    distinct, and then [N + 4] for [N] lines without repetition.  A string
    that occurs on several lines has the single id 4 plus the position of
    its last occurrence. *)
Theorem size_counts_distinct_strings filename lines pad bos eos unk v :
  Vocab.__init__ filename lines pad bos eos unk = Ok v →
  Vocab.size v
  = ((count_distinct [pad; bos; eos; unk] + count_distinct lines)%nat, v)
  ∧ (NoDup [pad; bos; eos; unk] →
       Vocab.size v = ((4 + count_distinct lines)%nat, v))
  ∧ (NoDup [pad; bos; eos; unk] → NoDup lines →
       Vocab.size v = ((4 + length lines)%nat, v))
  ∧ (∀ tok, tok ∈ lines →
       ∃ j, last_position lines tok j
            ∧ Vocab.map_tokens_to_ids_py (Scalar tok) v
              = (Scalar (4 + Z.of_nat j), v)).
Proof.
  intros [(Hbos & Heos & Hunk & Hpad) ->]%init_Ok.
  assert (Vocab.size (built filename lines pad bos eos unk)
          = ((count_distinct [pad; bos; eos; unk]
              + count_distinct lines)%nat,
             built filename lines pad bos eos unk)) as Hsize.
  { rewrite size_built. f_equal. unfold combined, count_distinct.
    apply length_remove_dups_app. intros x Hx.
    rewrite !elem_of_cons in Hx.
    destruct Hx as [->|[->|[->|[->|[]%elem_of_nil]]]]; done. }
  split; [done|]. split; [|split].
  - intros Hnd. rewrite Hsize. unfold count_distinct at 1.
    by rewrite remove_dups_NoDup.
  - intros Hnd Hlines. rewrite Hsize. unfold count_distinct.
    by rewrite !remove_dups_NoDup.
  - intros tok [j Hj]%last_position_exists. exists j. split; [done|].
    rewrite map_tokens_to_ids_py_built by done.
    rewrite (dict_lookup_Some _ _ (4 + Z.of_nat j)); [done|].
    apply id_of_built. exists (4 + j)%nat. split; [lia|].
    by apply (last_position_app_r [pad; bos; eos; unk]).
Qed.

Lemma size_counts_distinct_strings_witness :
  ∃ v, Vocab.init_default "vocab.txt" ["cat"; "dog"; "cat"] = Ok v
       ∧ Vocab.size v = (6%nat, v)
       ∧ ∃ j, last_position ["cat"; "dog"; "cat"] "cat" j
              ∧ Vocab.map_tokens_to_ids_py (Scalar "cat") v
                = (Scalar (4 + Z.of_nat j), v).
Proof.
  eexists. split; [reflexivity|].
  pose proof NoDup_default_specials as Hnd.
  pose proof (list_elem_of_here "cat" ["dog"; "cat"]) as Hin.
  split.
  - exact (proj1 (proj2 (size_counts_distinct_strings
             "vocab.txt" ["cat"; "dog"; "cat"]
             "<PAD>" "<BOS>" "<EOS>" "<UNK>" _ eq_refl)) Hnd).
  - exact (proj2 (proj2 (proj2 (size_counts_distinct_strings
             "vocab.txt" ["cat"; "dog"; "cat"]
             "<PAD>" "<BOS>" "<EOS>" "<UNK>" _ eq_refl))) "cat" Hin).
Defined.

(** C7 as stated fails: with the padding string equal to the unknown
    string the table of a one-line listing has size 4, not 5. *)
Lemma size_counts_distinct_strings_counterexample :
  ∃ v, Vocab.__init__ "vocab.txt" ["cat"]
         "<UNK>" "<BOS>" "<EOS>" "<UNK>" = Ok v
       ∧ Vocab.size v = (4%nat, v)
       ∧ (Vocab.size v).1 ≠ (4 + count_distinct ["cat"])%nat.
Proof.
  eexists. split; [reflexivity|]. split; [by vm_compute|].
  vm_compute. done.
Qed.

(** ** Ids outside the table *)

(** C5, amended: on a built table the lookup of a single integer returns
    a string and leaves the table unchanged, whatever the integer; for an
    integer below 0 or at least 4 plus the number of lines the string is
    the unknown token.  That bound is the size when no string occurs twice
    in the combined sequence. *)
Theorem ids_to_tokens_unknown filename lines pad bos eos unk v :
  Vocab.__init__ filename lines pad bos eos unk = Ok v →
  (∀ i, ∃ tok, Vocab.map_ids_to_tokens_py (Scalar i) v = (Scalar tok, v))
  ∧ (∀ i, i < 0 ∨ 4 + Z.of_nat (length lines) ≤ i →
       Vocab.map_ids_to_tokens_py (Scalar i) v
       = (Scalar (Vocab.unk_token v).1, v))
  ∧ (NoDup ([pad; bos; eos; unk] ++ lines) →
     ∀ i, i < 0 ∨ Z.of_nat (Vocab.size v).1 ≤ i →
       Vocab.map_ids_to_tokens_py (Scalar i) v
       = (Scalar (Vocab.unk_token v).1, v)).
Proof.
  intros [_ ->]%init_Ok.
  assert (∀ i, i < 0 ∨ 4 + Z.of_nat (length lines) ≤ i →
    Vocab.map_ids_to_tokens_py (Scalar i)
      (built filename lines pad bos eos unk)
    = (Scalar (Vocab.unk_token (built filename lines pad bos eos unk)).1,
       built filename lines pad bos eos unk)) as Hout.
  { intros i Hi. rewrite map_ids_to_tokens_py_eq.
    rewrite dict_lookup_None; [done|].
    rewrite token_of_built. case_decide; [|done].
    apply lookup_ge_None_2. unfold combined. rewrite length_app.
    simpl. lia. }
  split; [|split; [done|]].
  - intros i. rewrite map_ids_to_tokens_py_eq.
    destruct (dict_lookup_Scalar (Vocab._id_to_token_map_py
      (built filename lines pad bos eos unk)) i unk) as [tok Htok].
    exists tok. simpl Vocab._unk_token. by rewrite Htok.
  - intros Hnd i Hi. apply Hout. rewrite size_built in Hi.
    unfold combined in Hi. rewrite remove_dups_NoDup in Hi by done.
    rewrite length_app in Hi. simpl in Hi. lia.
Qed.

Lemma ids_to_tokens_unknown_witness :
  ∃ v, Vocab.init_default "vocab.txt" ["cat"; "dog"] = Ok v
       ∧ Vocab.map_ids_to_tokens_py (Scalar 6) v = (Scalar "<UNK>", v)
       ∧ Vocab.map_ids_to_tokens_py (Scalar (-1)) v = (Scalar "<UNK>", v).
Proof.
  eexists. split; [reflexivity|].
  destruct (ids_to_tokens_unknown "vocab.txt" ["cat"; "dog"]
              "<PAD>" "<BOS>" "<EOS>" "<UNK>" _ eq_refl)
    as (_ & Hout & _).
  split; apply Hout; simpl; lia.
Defined.

(** C5 as stated fails: for the listing of one string on two lines the
    size is 5, and the id 5 is bound to that string, not to the unknown
    token. *)
Lemma ids_to_tokens_unknown_counterexample :
  ∃ v, Vocab.init_default "vocab.txt" ["cat"; "cat"] = Ok v
       ∧ Vocab.size v = (5%nat, v)
       ∧ Vocab.unk_token v = ("<UNK>", v)
       ∧ Vocab.map_ids_to_tokens_py (Scalar 5) v = (Scalar "cat", v).
Proof.
  eexists. split; [reflexivity|]. repeat split; by vm_compute.
Qed.

(** ** Round trips *)

(** C6, amended: on a built table a token of the table mapped to its id
    and back is the same token.  An id mapped to its token and back is the
    same id when its position is the last one that holds its string; this
    covers every id below the size when no string occurs twice in the
    combined sequence. *)
Theorem lookup_round_trip filename lines pad bos eos unk v :
  Vocab.__init__ filename lines pad bos eos unk = Ok v →
  let vocab := [pad; bos; eos; unk] ++ lines in
  (∀ t, t ∈ vocab →
     (ids ← Vocab.map_tokens_to_ids_py (Scalar t);
      Vocab.map_ids_to_tokens_py ids) v = (Scalar t, v))
  ∧ (∀ (n : nat) t, last_position vocab t n →
       (tokens ← Vocab.map_ids_to_tokens_py (Scalar (Z.of_nat n));
        Vocab.map_tokens_to_ids_py tokens) v = (Scalar (Z.of_nat n), v))
  ∧ (NoDup vocab →
     ∀ i, 0 ≤ i < Z.of_nat (Vocab.size v).1 →
       (tokens ← Vocab.map_ids_to_tokens_py (Scalar i);
        Vocab.map_tokens_to_ids_py tokens) v = (Scalar i, v)).
Proof.
  intros [(_ & _ & Hunk & _) ->]%init_Ok vocab.
  assert (∀ (n : nat) t, last_position vocab t n →
    (tokens ← Vocab.map_ids_to_tokens_py (Scalar (Z.of_nat n));
     Vocab.map_tokens_to_ids_py tokens)
      (built filename lines pad bos eos unk)
    = (Scalar (Z.of_nat n), built filename lines pad bos eos unk)) as Hback.
  { intros n t Hn. unfold mbind, Vocab.M_bind.
    rewrite map_ids_to_tokens_py_eq.
    rewrite (dict_lookup_Some _ _ t).
    - rewrite map_tokens_to_ids_py_built by done.
      rewrite (dict_lookup_Some _ _ (Z.of_nat n)); [done|].
      apply id_of_built. by exists n.
    - rewrite token_of_built, decide_True, Nat2Z.id by lia. apply Hn. }
  split; [|split; [done|]].
  - intros t [n Hn]%last_position_exists. unfold mbind, Vocab.M_bind.
    rewrite map_tokens_to_ids_py_built by done.
    rewrite (dict_lookup_Some _ _ (Z.of_nat n))
      by (apply id_of_built; by exists n).
    rewrite map_ids_to_tokens_py_eq.
    rewrite (dict_lookup_Some _ _ t); [done|].
    rewrite token_of_built, decide_True, Nat2Z.id by lia. apply Hn.
  - intros Hnd i Hi. rewrite size_built in Hi. cbn [fst] in Hi.
    unfold combined in Hi. fold vocab in Hi.
    rewrite remove_dups_NoDup in Hi by done.
    destruct (lookup_lt_is_Some_2 vocab (Z.to_nat i)) as [t Ht]; [lia|].
    rewrite <-(Z2Nat.id i) by lia. apply (Hback _ t). split; [done|].
    intros j Hj Hj'. apply (NoDup_lookup _ _ _ _ Hnd Ht) in Hj'. lia.
Qed.

Lemma lookup_round_trip_witness :
  ∃ v, Vocab.init_default "vocab.txt" ["cat"; "dog"] = Ok v
       ∧ (ids ← Vocab.map_tokens_to_ids_py (Scalar "dog");
          Vocab.map_ids_to_tokens_py ids) v = (Scalar "dog", v).
Proof.
  eexists. split; [reflexivity|].
  pose proof (list_elem_of_further "dog" "<PAD>" _
    (list_elem_of_further "dog" "<BOS>" _
    (list_elem_of_further "dog" "<EOS>" _
    (list_elem_of_further "dog" "<UNK>" _
    (list_elem_of_further "dog" "cat" _
    (list_elem_of_here "dog" [])))))) as Hin.
  exact (proj1 (lookup_round_trip "vocab.txt" ["cat"; "dog"]
           "<PAD>" "<BOS>" "<EOS>" "<UNK>" _ eq_refl) "dog" Hin).
Defined.

(** C6 as stated fails: for the listing of one string on two lines the
    size is 5, and the id 4, which is below it, maps to that string and
    back to the id 5. *)
Lemma lookup_round_trip_counterexample :
  ∃ v, Vocab.init_default "vocab.txt" ["cat"; "cat"] = Ok v
       ∧ Vocab.size v = (5%nat, v)
       ∧ (tokens ← Vocab.map_ids_to_tokens_py (Scalar 4);
          Vocab.map_tokens_to_ids_py tokens) v = (Scalar 5, v).
Proof.
  eexists. split; [reflexivity|]. split; by vm_compute.
Qed.

(** ** Nested inputs *)

Section dict_lookup_nested.
Context {K : Type} `{Countable K} {V : Type}.
Implicit Types (d : defaultdict K V) (x : nested K).

Lemma dict_lookup_shape d x dflt : shape (dict_lookup d x dflt) = shape x.
Proof.
  induction x as [k|l IH] using nested_ind; [done|].
  simpl. f_equal. rewrite List.map_map.
  induction IH as [|y l Hy _ IHl]; [done|]. simpl. by rewrite Hy, IHl.
Qed.

Lemma dict_lookup_leaves d x dflt :
  Forall2 (λ k v, dict_lookup d (Scalar k) dflt = Scalar v)
          (leaves x) (leaves (dict_lookup d x dflt)).
Proof.
  induction x as [k|l IH] using nested_ind.
  { simpl. by repeat constructor. }
  simpl. induction IH as [|y l Hy _ IHl]; simpl; [constructor|].
  by apply Forall2_app.
Qed.
Lemma dict_lookup_leaves_map d x dflt :
  leaves (dict_lookup d x dflt)
  = List.map (λ k, match defaultdict.items d !! k with
                   | Some v => v
                   | None => dflt
                   end) (leaves x).
Proof.
  induction x as [k|l IH] using nested_ind; [done|].
  simpl. induction IH as [|y l Hy _ IHl]; [done|].
  simpl. by rewrite List.map_app, Hy, IHl.
Qed.

Lemma dict_lookup_two_levels d a b c va vb vc dflt :
  dict_lookup d (Scalar a) dflt = Scalar va →
  dict_lookup d (Scalar b) dflt = Scalar vb →
  dict_lookup d (Scalar c) dflt = Scalar vc →
  dict_lookup d
    (Sequence [Sequence [Scalar a; Scalar b]; Sequence [Scalar c]]) dflt
  = Sequence [Sequence [Scalar va; Scalar vb]; Sequence [Scalar vc]].
Proof.
  intros Ha Hb Hc.
  change (dict_lookup d
    (Sequence [Sequence [Scalar a; Scalar b]; Sequence [Scalar c]]) dflt)
    with (Sequence [Sequence [dict_lookup d (Scalar a) dflt;
                              dict_lookup d (Scalar b) dflt];
                    Sequence [dict_lookup d (Scalar c) dflt]]).
  by rewrite Ha, Hb, Hc.
Qed.
End dict_lookup_nested.

(** C8: on a built table both lookups return a nested list of the shape
    of their argument and leave the table unchanged, and every leaf of the
    result is read off the table.  A token leaf becomes the id the token
    map holds for it, which is the last position of the token in the
    combined sequence, and 3, the unknown id, when the token is not in the
    sequence.  An id leaf becomes the string the id map holds for it, which
    is the string at that position of the combined sequence, and the
    unknown token when the id is no position of the sequence.  So the
    tokens [[a, b], [c]] map to the ids [[id(a), id(b)], [id(c)]], and
    likewise for ids. *)
Theorem lookups_preserve_shape filename lines pad bos eos unk v :
  Vocab.__init__ filename lines pad bos eos unk = Ok v →
  let vocab := [pad; bos; eos; unk] ++ lines in
  let id_of (t : string) : Z :=
    match defaultdict.items (Vocab._token_to_id_map_py v) !! t with
    | Some i => i
    | None => 3
    end in
  let token_of (i : Z) : string :=
    match defaultdict.items (Vocab._id_to_token_map_py v) !! i with
    | Some t => t
    | None => unk
    end in
  (∀ t, (∃ n, last_position vocab t n ∧ id_of t = Z.of_nat n)
        ∨ ((t ∉ vocab) ∧ id_of t = (Vocab.unk_token_id v).1 ∧ id_of t = 3))
  ∧ (∀ i, (∃ n t, i = Z.of_nat n ∧ vocab !! n = Some t ∧ token_of i = t)
          ∨ ((i < 0 ∨ Z.of_nat (length vocab) ≤ i)
             ∧ token_of i = (Vocab.unk_token v).1))
  ∧ (∀ tokens, ∃ ids,
       Vocab.map_tokens_to_ids_py tokens v = (ids, v)
       ∧ shape ids = shape tokens
       ∧ leaves ids = List.map id_of (leaves tokens)
       ∧ Forall2 (λ t i, Vocab.map_tokens_to_ids_py (Scalar t) v
                         = (Scalar i, v))
                 (leaves tokens) (leaves ids))
  ∧ (∀ ids, ∃ tokens,
       Vocab.map_ids_to_tokens_py ids v = (tokens, v)
       ∧ shape tokens = shape ids
       ∧ leaves tokens = List.map token_of (leaves ids)
       ∧ Forall2 (λ i t, Vocab.map_ids_to_tokens_py (Scalar i) v
                         = (Scalar t, v))
                 (leaves ids) (leaves tokens))
  ∧ (∀ a b c,
       Vocab.map_tokens_to_ids_py
         (Sequence [Sequence [Scalar a; Scalar b]; Sequence [Scalar c]]) v
       = (Sequence [Sequence [Scalar (id_of a); Scalar (id_of b)];
                    Sequence [Scalar (id_of c)]], v))
  ∧ (∀ ia ib ic,
       Vocab.map_ids_to_tokens_py
         (Sequence [Sequence [Scalar ia; Scalar ib]; Sequence [Scalar ic]]) v
       = (Sequence [Sequence [Scalar (token_of ia); Scalar (token_of ib)];
                    Sequence [Scalar (token_of ic)]], v)).
Proof.
  intros [(_ & _ & Hunk & _) ->]%init_Ok vocab.
  set (v := built filename lines pad bos eos unk).
  intros id_of token_of.
  assert (∀ tokens, Vocab.map_tokens_to_ids_py tokens v
            = (dict_lookup (Vocab._token_to_id_map_py v) tokens 3, v))
    as Hids by (intros tokens; by apply map_tokens_to_ids_py_built).
  split; [|split; [|split; [|split; [|split]]]].
  - intros t. unfold id_of.
    destruct (defaultdict.items (Vocab._token_to_id_map_py v) !! t)
      as [i|] eqn:Ht.
    + left. apply id_of_built in Ht as (n & -> & Hn). by exists n.
    + right. apply id_of_built_None in Ht. split; [done|].
      unfold v. by rewrite unk_token_id_built.
  - intros i. unfold token_of, v. rewrite token_of_built.
    change (combined pad bos eos unk lines) with vocab.
    case_decide as Hi; [|right; split; [lia|done]].
    destruct (vocab !! Z.to_nat i) as [t|] eqn:Ht.
    + left. exists (Z.to_nat i), t. split; [lia|done].
    + right. apply lookup_ge_None in Ht. split; [lia|done].
  - intros tokens. eexists. split; [apply Hids|].
    split; [apply dict_lookup_shape|].
    split; [apply dict_lookup_leaves_map|].
    eapply Forall2_impl; [apply dict_lookup_leaves|].
    intros t i Hti. by rewrite Hids, Hti.
  - intros ids. eexists. split; [apply map_ids_to_tokens_py_eq|].
    split; [apply dict_lookup_shape|].
    split; [apply dict_lookup_leaves_map|].
    eapply Forall2_impl; [apply dict_lookup_leaves|].
    intros i t Hit. by rewrite map_ids_to_tokens_py_eq, Hit.
  - intros a b c. by rewrite Hids.
  - intros ia ib ic. by rewrite map_ids_to_tokens_py_eq.
Qed.

Lemma lookups_preserve_shape_witness :
  ∃ v, Vocab.init_default "vocab.txt" ["cat"; "dog"] = Ok v
       ∧ Vocab.map_tokens_to_ids_py
           (Sequence [Sequence [Scalar "cat"; Scalar "dog"];
                      Sequence [Scalar "fish"]]) v
         = (Sequence [Sequence [Scalar 4; Scalar 5]; Sequence [Scalar 3]],
            v)
       ∧ Vocab.map_ids_to_tokens_py
           (Sequence [Sequence [Scalar 0; Scalar 5]; Sequence [Scalar 6]]) v
         = (Sequence [Sequence [Scalar "<PAD>"; Scalar "dog"];
                      Sequence [Scalar "<UNK>"]], v).
Proof.
  eexists. split; [reflexivity|]. split.
  - refine (eq_trans
      (proj1 (proj2 (proj2 (proj2 (proj2 (lookups_preserve_shape
         "vocab.txt" ["cat"; "dog"]
         "<PAD>" "<BOS>" "<EOS>" "<UNK>" _ eq_refl)))))
         "cat" "dog" "fish") _).
    vm_compute. reflexivity.
  - refine (eq_trans
      (proj2 (proj2 (proj2 (proj2 (proj2 (lookups_preserve_shape
         "vocab.txt" ["cat"; "dog"]
         "<PAD>" "<BOS>" "<EOS>" "<UNK>" _ eq_refl)))))
         0 5 6) _).
    vm_compute. reflexivity.
Defined.

(** ** Ids of repeated lines *)

(** C9: on a built table every position below 4 plus the number of
    lines is a key of the id map, bound to the string at that position of
    the combined sequence, and the lookup returns that string; this holds
    whether or not repeated lines make the size smaller than that bound. *)
Theorem ids_to_tokens_covers_sequence filename lines pad bos eos unk v :
  Vocab.__init__ filename lines pad bos eos unk = Ok v →
  ∀ n : nat, (n < 4 + length lines)%nat →
    ∃ tok, ([pad; bos; eos; unk] ++ lines) !! n = Some tok
           ∧ defaultdict.items (Vocab._id_to_token_map_py v)
               !! Z.of_nat n = Some tok
           ∧ Vocab.map_ids_to_tokens_py (Scalar (Z.of_nat n)) v
             = (Scalar tok, v).
Proof.
  intros [_ ->]%init_Ok n Hn.
  destruct (lookup_lt_is_Some_2 ([pad; bos; eos; unk] ++ lines) n)
    as [tok Htok]; [rewrite length_app; simpl; lia|].
  assert (defaultdict.items
            (Vocab._id_to_token_map_py
               (built filename lines pad bos eos unk)) !! Z.of_nat n
          = Some tok) as Hkey.
  { rewrite token_of_built, decide_True, Nat2Z.id by lia. exact Htok. }
  exists tok. split; [done|]. split; [done|].
  rewrite map_ids_to_tokens_py_eq. by rewrite (dict_lookup_Some _ _ tok).
Qed.

Lemma ids_to_tokens_covers_sequence_witness :
  ∃ v, Vocab.init_default "vocab.txt" ["cat"; "cat"] = Ok v
       ∧ Vocab.size v = (5%nat, v)
       ∧ ∃ tok, (["<PAD>"; "<BOS>"; "<EOS>"; "<UNK>"] ++ ["cat"; "cat"])
                  !! 5%nat = Some tok
                ∧ defaultdict.items (Vocab._id_to_token_map_py v) !! 5
                  = Some tok
                ∧ Vocab.map_ids_to_tokens_py (Scalar 5) v = (Scalar tok, v).
Proof.
  eexists. split; [reflexivity|]. split; [vm_compute; reflexivity|].
  apply (ids_to_tokens_covers_sequence "vocab.txt" ["cat"; "cat"]
           "<PAD>" "<BOS>" "<EOS>" "<UNK>" _ eq_refl 5%nat).
  simpl. lia.
Defined.

(** ** Special tokens that coincide *)

(** C10: the checks of construction compare the special strings with
    the lines only.  When the padding string equals the unknown string
    and no special string is among the lines, construction succeeds and
    the padding id is 3. *)
Theorem pad_equal_unk_has_id_3 filename lines pad bos eos unk :
  pad = unk →
  (bos ∉ lines) → (eos ∉ lines) → (unk ∉ lines) →
  ∃ v, Vocab.__init__ filename lines pad bos eos unk = Ok v
       ∧ Vocab.pad_token_id v = (3, v).
Proof.
  intros -> Hbos Heos Hunk. exists (built filename lines unk bos eos unk).
  split; [by apply init_Ok|].
  destruct (id_accessors_built (built filename lines unk bos eos unk))
    as (-> & _). simpl Vocab._pad_token.
  apply (getitem_built _ _ _ _ _ _ unk 3). by apply unk_last_position.
Qed.

Lemma pad_equal_unk_has_id_3_witness :
  ∃ v, Vocab.__init__ "vocab.txt" ["cat"; "dog"] "<X>" "<BOS>" "<EOS>" "<X>"
       = Ok v
       ∧ Vocab.pad_token_id v = (3, v).
Proof.
  apply (pad_equal_unk_has_id_3 "vocab.txt" ["cat"; "dog"]
           "<X>" "<BOS>" "<EOS>" "<X>");
    [reflexivity|..]; apply (bool_decide_unpack _); vm_compute; exact I.
Defined.

(** ** A two-line listing, end to end *)

Example cat_dog_table :
  ∃ v, Vocab.init_default "vocab.txt" ["cat"; "dog"] = Ok v
       ∧ Vocab.map_tokens_to_ids_py
           (Sequence [Scalar "cat"; Scalar "dog"; Scalar "fish"]) v
         = (Sequence [Scalar 4; Scalar 5; Scalar 3], v)
       ∧ Vocab.map_ids_to_tokens_py (Scalar 0) v = (Scalar "<PAD>", v)
       ∧ Vocab.special_tokens v
         = (["<PAD>"; "<BOS>"; "<EOS>"; "<UNK>"], v)
       ∧ Vocab.size v = (6%nat, v).
Proof. eexists. split; [reflexivity|]. repeat split; by vm_compute. Qed.

(** * Further properties *)

(** ** [_make_defaultdict] on arbitrary keys and values *)

Section make_defaultdict_general.
Context {K : Type} `{Countable K} {V : Type}.
Implicit Types (keys : list K) (values : list V) (l : list (K * V)).

Lemma foldl_setitem_items l (d : defaultdict K V) :
  defaultdict.items
    (foldl (λ dict_ kv, defaultdict.setitem dict_ kv.1 kv.2) d l)
  = foldl (λ m kv, <[kv.1 := kv.2]> m) (defaultdict.items d) l.
Proof. revert d. induction l as [|kv l IH]; intros d; simpl; [done|]. by rewrite IH. Qed.

Lemma foldl_insert_lookup l (m : gmap K V) k v :
  foldl (λ m kv, <[kv.1 := kv.2]> m) m l !! k = Some v
  ↔ (∃ n, l !! n = Some (k, v)
          ∧ ∀ j v', (n < j)%nat → l !! j ≠ Some (k, v'))
    ∨ ((∀ j v', l !! j ≠ Some (k, v')) ∧ m !! k = Some v).
Proof.
  revert v. induction l as [|[k' v'] l IH] using rev_ind; intros v.
  { simpl. split; [intros Hk; right; by split|].
    intros [(n & Hn & _)|[_ Hk]]; [done|exact Hk]. }
  rewrite foldl_snoc. simpl. rewrite lookup_insert.
  destruct (decide (k' = k)) as [->|Hne].
  - split.
    + intros [= ->]. left. exists (length l).
      split; [by rewrite list_lookup_middle|].
      intros j w Hj. rewrite lookup_ge_None_2; [done|].
      rewrite length_app. simpl. lia.
    + intros [(n & Hn & Hlast)|[Hnone _]].
      * destruct (decide (n = length l)) as [->|Hn'].
        -- rewrite list_lookup_middle in Hn by done. congruence.
        -- destruct (Hlast (length l) v').
           ++ apply lookup_lt_Some in Hn. rewrite length_app in Hn.
              simpl in Hn. lia.
           ++ by rewrite list_lookup_middle.
      * destruct (Hnone (length l) v'). by rewrite list_lookup_middle.
  - rewrite IH. clear IH.
    assert (∀ j w, (l ++ [(k', v')]) !! j = Some (k, w) ↔ l !! j = Some (k, w))
      as Hsame.
    { intros j w. destruct (decide (j < length l)%nat).
      - by rewrite lookup_app_l.
      - rewrite (lookup_ge_None_2 l) by lia.
        destruct (decide (j = length l)) as [->|].
        + rewrite list_lookup_middle by done. split; [|done]. congruence.
        + rewrite lookup_ge_None_2; [done|]. rewrite length_app. simpl. lia. }
    split.
    + intros [(n & Hn & Hlast)|[Hnone Hm]].
      * left. exists n. split; [by apply Hsame|].
        intros j w Hj Hj'. apply (Hlast j w Hj). by apply Hsame.
      * right. split; [|done]. intros j w Hj. apply (Hnone j w).
        by apply Hsame.
    + intros [(n & Hn & Hlast)|[Hnone Hm]].
      * left. exists n. split; [by apply Hsame|].
        intros j w Hj Hj'. apply (Hlast j w Hj). by apply Hsame.
      * right. split; [|done]. intros j w Hj. apply (Hnone j w).
        by apply Hsame.
Qed.

Lemma foldl_insert_dom l (m : gmap K V) :
  dom (foldl (λ m kv, <[kv.1 := kv.2]> m) m l)
  = dom m ∪ (list_to_set (l.*1) : gset K).
Proof.
  induction l as [|[k v] l IH] using rev_ind.
  { simpl. by rewrite (right_id_L ∅ (∪)). }
  rewrite foldl_snoc, fmap_app, list_to_set_app_L. simpl.
  rewrite dom_insert_L, IH. apply set_eq. intros x.
  rewrite !elem_of_union, elem_of_singleton, elem_of_list_to_set.
  pose proof (not_elem_of_empty (C := gset K) x). tauto.
Qed.

Lemma fst_zip_take keys values :
  (zip keys values).*1 = take (length values) keys.
Proof.
  rewrite <-(zip_with_take_l pair keys values).
  apply fst_zip. rewrite length_take. lia.
Qed.

Lemma length_remove_dups_le {A : Type} `{EqDecision A} (l : list A) :
  (length (remove_dups l) ≤ length l)%nat.
Proof.
  induction l as [|x l IH]; simpl; [done|].
  destruct (decide_rel elem_of x l); simpl; lia.
Qed.

Lemma length_remove_dups_eq {A : Type} `{EqDecision A} (l : list A) :
  length (remove_dups l) = length l ↔ NoDup l.
Proof.
  split; [|by intros ->%remove_dups_NoDup].
  induction l as [|x l IH]; simpl; [constructor|].
  pose proof (length_remove_dups_le l).
  destruct (decide_rel elem_of x l); simpl; [lia|].
  intros [= Hlen]. constructor; [done|]. by apply IH.
Qed.

Lemma make_defaultdict_zip_lookup keys values (dflt : V) k v :
  defaultdict.items (_make_defaultdict keys values dflt) !! k = Some v
  ↔ ∃ n, zip keys values !! n = Some (k, v)
         ∧ ∀ j v', (n < j)%nat → zip keys values !! j ≠ Some (k, v').
Proof.
  unfold _make_defaultdict. rewrite foldl_setitem_items, foldl_insert_lookup.
  simpl. split; [|by left].
  intros [?|[_ Hempty]]; [done|by rewrite lookup_empty in Hempty].
Qed.

Lemma make_defaultdict_dom keys values (dflt : V) :
  dom (defaultdict.items (_make_defaultdict keys values dflt))
  = (list_to_set (take (length values) keys) : gset K).
Proof.
  unfold _make_defaultdict.
  rewrite foldl_setitem_items, foldl_insert_dom, fst_zip_take. simpl.
  by rewrite dom_empty_L, (left_id_L ∅ (∪)).
Qed.

Lemma make_defaultdict_size keys values (dflt : V) :
  defaultdict.len (_make_defaultdict keys values dflt)
  = length (remove_dups (take (length values) keys)).
Proof.
  unfold defaultdict.len. rewrite <-size_dom, make_defaultdict_dom.
  rewrite <-(size_list_to_set (C := gset K)
               (remove_dups (take (length values) keys)))
    by apply NoDup_remove_dups.
  f_equal. apply set_eq. intros x.
  by rewrite !elem_of_list_to_set, elem_of_remove_dups.
Qed.

(** X1: the dictionary binds a key to the value paired with its last
    occurrence among the pairs [zip] forms, that is among the positions
    that have both a key and a value. *)
Theorem make_defaultdict_last_pair keys values (dflt : V) k v :
  defaultdict.items (_make_defaultdict keys values dflt) !! k = Some v
  ↔ ∃ n, keys !! n = Some k ∧ values !! n = Some v
         ∧ ∀ j, (n < j)%nat → (j < length values)%nat → keys !! j ≠ Some k.
Proof.
  rewrite make_defaultdict_zip_lookup. split.
  - intros (n & Hn & Hlast).
    apply lookup_zip_with_Some in Hn as (x & y & [= <- <-] & Hx & Hy).
    exists n. split; [done|]. split; [done|].
    intros j Hj Hlen Hkj.
    destruct (lookup_lt_is_Some_2 values j Hlen) as [w Hw].
    apply (Hlast j w Hj). apply lookup_zip_with_Some. by exists k, w.
  - intros (n & Hk & Hv & Hlast). exists n. split.
    + apply lookup_zip_with_Some. by exists k, v.
    + intros j w Hj Hzip.
      apply lookup_zip_with_Some in Hzip as (x & y & [= <- <-] & Hx & Hy).
      apply (Hlast j Hj); [by eapply lookup_lt_Some|done].
Qed.

(** X2: the dictionary has one entry for each distinct key among the
    first [len(values)] keys, so at most as many as the shorter list has
    elements; any other key is missing, and reading it with [d[k]] returns
    the default value. *)
Theorem make_defaultdict_len keys values (dflt : V) :
  let d := _make_defaultdict keys values dflt in
  defaultdict.len d = length (remove_dups (take (length values) keys))
  ∧ (defaultdict.len d ≤ length keys `min` length values)%nat
  ∧ (∀ k, defaultdict.items d !! k = None
          ↔ k ∉ take (length values) keys)
  ∧ (∀ k, k ∉ take (length values) keys →
          (defaultdict.getitem d k).1 = dflt).
Proof.
  intros d.
  assert (∀ k, defaultdict.items d !! k = None
               ↔ k ∉ take (length values) keys) as Hnone.
  { intros k. unfold d.
    by rewrite <-not_elem_of_dom, make_defaultdict_dom, elem_of_list_to_set. }
  split; [apply make_defaultdict_size|]. split; [|split; [done|]].
  - unfold d. rewrite make_defaultdict_size.
    pose proof (length_remove_dups_le (take (length values) keys)) as Hle.
    rewrite length_take in Hle. lia.
  - intros k Hk%Hnone. unfold defaultdict.getitem. rewrite Hk. simpl.
    apply make_defaultdict_default.
Qed.

(** X3: when no key occurs twice, the dictionary holds exactly the pairs
    [zip] forms, and as many entries as the shorter list has elements. *)
Theorem make_defaultdict_NoDup keys values (dflt : V) :
  NoDup keys →
  let d := _make_defaultdict keys values dflt in
  (∀ k v, defaultdict.items d !! k = Some v ↔ (k, v) ∈ zip keys values)
  ∧ defaultdict.len d = (length keys `min` length values)%nat.
Proof.
  intros Hnd d. split.
  - intros k v. unfold d. rewrite make_defaultdict_zip_lookup.
    rewrite list_elem_of_lookup. split; [intros (n & Hn & _); by exists n|].
    intros [n Hn]. exists n. split; [done|]. intros j w Hj Hzip.
    apply lookup_zip_with_Some in Hn as (x & y & [= <- <-] & Hx & Hy).
    apply lookup_zip_with_Some in Hzip as (x & y' & [= <- <-] & Hx' & Hy').
    pose proof (NoDup_lookup _ _ _ _ Hnd Hx Hx'). lia.
  - unfold d. rewrite make_defaultdict_size, remove_dups_NoDup.
    + rewrite length_take. lia.
    + rewrite <-(take_drop (length values) keys) in Hnd.
      by apply NoDup_app in Hnd as (? & _).
Qed.
End make_defaultdict_general.

Lemma make_defaultdict_len_witness :
  let d := _make_defaultdict ["a"; "b"; "a"; "c"] [10; 20; 30] 7 in
  defaultdict.len d = 2%nat ∧ (defaultdict.getitem d "c").1 = 7.
Proof.
  assert ("c" ∉ take (length [10; 20; 30]) ["a"; "b"; "a"; "c"]) as Hc
    by (apply (bool_decide_unpack _); vm_compute; exact I).
  split.
  - exact (proj1 (make_defaultdict_len ["a"; "b"; "a"; "c"] [10; 20; 30] 7)).
  - exact (proj2 (proj2 (proj2
             (make_defaultdict_len ["a"; "b"; "a"; "c"] [10; 20; 30] 7)))
             "c" Hc).
Defined.

Lemma make_defaultdict_NoDup_witness :
  let d := _make_defaultdict ["a"; "b"; "c"] [10; 20] 0 in
  (∀ k v, defaultdict.items d !! k = Some v
          ↔ (k, v) ∈ zip ["a"; "b"; "c"] [10; 20])
  ∧ defaultdict.len d = 2%nat.
Proof.
  apply (make_defaultdict_NoDup ["a"; "b"; "c"] [10; 20] 0).
  apply (bool_decide_unpack _). vm_compute. exact I.
Defined.

(** ** Construction and the accessors *)

Lemma entries_len {V : Type} (values : list V) (dflt : V) :
  defaultdict.len (_make_defaultdict (arange (length values)) values dflt)
  = length values.
Proof.
  rewrite make_defaultdict_size.
  rewrite take_ge by (by rewrite length_arange).
  rewrite remove_dups_NoDup by apply NoDup_seqZ. apply length_arange.
Qed.

Lemma last_position_app_inv {A : Type} (l k : list A) t n :
  t ∉ k → last_position (l ++ k) t n → last_position l t n.
Proof.
  intros Hk [Hn Hlast].
  assert (n < length l)%nat as Hlt.
  { destruct (decide (n < length l)%nat); [done|].
    rewrite lookup_app_r in Hn by lia.
    destruct Hk. by eapply list_elem_of_lookup_2. }
  rewrite lookup_app_l in Hn by done. split; [done|].
  intros j Hj Hj'. apply (Hlast j Hj).
  rewrite lookup_app_l; [done|]. by eapply lookup_lt_Some.
Qed.

(** Reading the token dictionary of a built table at one of the four
    special strings returns the last of the first four positions that
    holds it, and leaves the table as it was. *)
Lemma special_getitem_built filename lines pad bos eos unk tok :
  tok ∈ [pad; bos; eos; unk] → tok ∉ lines →
  ∃ n, last_position [pad; bos; eos; unk] tok n
       ∧ Vocab.token_to_id_getitem tok (built filename lines pad bos eos unk)
         = (Z.of_nat n, built filename lines pad bos eos unk).
Proof.
  intros [n Hn]%last_position_exists Hlines. exists n. split; [done|].
  apply getitem_built. by apply (last_position_app_l [pad; bos; eos; unk]).
Qed.

Lemma special_elems (pad bos eos unk : string) :
  pad ∈ [pad; bos; eos; unk] ∧ bos ∈ [pad; bos; eos; unk]
  ∧ eos ∈ [pad; bos; eos; unk] ∧ unk ∈ [pad; bos; eos; unk].
Proof. rewrite !elem_of_cons. tauto. Qed.

(** X4: construction succeeds exactly when none of the four special
    strings is among the lines.  The table it returns keeps the file name
    and the four strings it was given: the token accessors and
    [special_tokens] return them, in the order pad, bos, eos, unk. *)
Theorem init_succeeds_iff filename lines pad bos eos unk :
  ((∃ v, Vocab.__init__ filename lines pad bos eos unk = Ok v)
   ↔ ∀ tok, tok ∈ [pad; bos; eos; unk] → tok ∉ lines)
  ∧ (∀ v, Vocab.__init__ filename lines pad bos eos unk = Ok v →
       Vocab._filename v = filename
       ∧ Vocab.pad_token v = (pad, v) ∧ Vocab.bos_token v = (bos, v)
       ∧ Vocab.eos_token v = (eos, v) ∧ Vocab.unk_token v = (unk, v)
       ∧ Vocab.special_tokens v = ([pad; bos; eos; unk], v)).
Proof.
  split.
  - split.
    + intros [v [(Hbos & Heos & Hunk & Hpad) _]%init_Ok] tok Htok.
      rewrite !elem_of_cons in Htok.
      by destruct Htok as [->|[->|[->|[->|?%elem_of_nil]]]].
    + intros Hnone. destruct (special_elems pad bos eos unk) as (?&?&?&?).
      exists (built filename lines pad bos eos unk). apply init_Ok.
      repeat split; by apply Hnone.
  - by intros v [_ ->]%init_Ok.
Qed.

Lemma init_succeeds_iff_witness :
  ∃ v, Vocab.__init__ "vocab.txt" ["cat"; "dog"] "<PAD>" "<BOS>" "<EOS>" "<UNK>"
       = Ok v
       ∧ Vocab.special_tokens v = (["<PAD>"; "<BOS>"; "<EOS>"; "<UNK>"], v).
Proof.
  assert (∀ tok, tok ∈ ["<PAD>"; "<BOS>"; "<EOS>"; "<UNK>"] →
                 tok ∉ ["cat"; "dog"]) as Hnone.
  { intros tok Htok. rewrite !elem_of_cons in Htok.
    destruct Htok as [->|[->|[->|[->|?%elem_of_nil]]]]; [..|done];
      apply (bool_decide_unpack _); vm_compute; exact I. }
  destruct (proj2 (proj1 (init_succeeds_iff "vocab.txt" ["cat"; "dog"]
              "<PAD>" "<BOS>" "<EOS>" "<UNK>")) Hnone) as [v Hv].
  exists v. split; [exact Hv|].
  apply (proj2 (init_succeeds_iff "vocab.txt" ["cat"; "dog"]
           "<PAD>" "<BOS>" "<EOS>" "<UNK>") v Hv).
Defined.

(** X5: on a built table each id accessor leaves the table unchanged,
    and the padding id is 0 exactly when the padding string differs from
    the other three special strings, the begin id is 1 exactly when the
    begin string differs from the end and unknown strings, the end id is 2
    exactly when the end string differs from the unknown string. *)
Theorem special_ids_exact filename lines pad bos eos unk v :
  Vocab.__init__ filename lines pad bos eos unk = Ok v →
  ((Vocab.pad_token_id v).2 = v ∧ (Vocab.bos_token_id v).2 = v
   ∧ (Vocab.eos_token_id v).2 = v ∧ (Vocab.unk_token_id v).2 = v)
  ∧ ((Vocab.pad_token_id v).1 = 0 ↔ pad ∉ [bos; eos; unk])
  ∧ ((Vocab.bos_token_id v).1 = 1 ↔ bos ∉ [eos; unk])
  ∧ ((Vocab.eos_token_id v).1 = 2 ↔ eos ≠ unk).
Proof.
  intros [(Hbos & Heos & Hunk & Hpad) ->]%init_Ok.
  destruct (special_elems pad bos eos unk) as (Hp & Hb & He & Hu).
  destruct (id_accessors_built (built filename lines pad bos eos unk))
    as (-> & -> & -> & ->).
  simpl Vocab._pad_token. simpl Vocab._bos_token.
  simpl Vocab._eos_token. simpl Vocab._unk_token.
  destruct (special_getitem_built filename lines pad bos eos unk pad Hp Hpad)
    as (np & Hnp & ->).
  destruct (special_getitem_built filename lines pad bos eos unk bos Hb Hbos)
    as (nb & Hnb & ->).
  destruct (special_getitem_built filename lines pad bos eos unk eos He Heos)
    as (ne & Hne & ->).
  destruct (special_getitem_built filename lines pad bos eos unk unk Hu Hunk)
    as (nu & Hnu & ->).
  split; [done|]. cbn [fst]. rewrite !not_elem_of_cons.
  split; [|split].
  - split.
    + intros Hz. assert (np = 0%nat) as -> by lia. destruct Hnp as [_ Hlast].
      pose proof (Hlast 1%nat ltac:(lia)). pose proof (Hlast 2%nat ltac:(lia)).
      pose proof (Hlast 3%nat ltac:(lia)). simpl in *.
      repeat split; [congruence..|apply not_elem_of_nil].
    + intros (? & ? & ? & _).
      assert (last_position [pad; bos; eos; unk] pad 0) as Hfirst.
      { split; [done|].
        intros [|[|[|[|?]]]] ?; simpl; first [lia | done | congruence]. }
      by rewrite (last_position_unique _ _ _ _ Hnp Hfirst).
  - split.
    + intros Hz. assert (nb = 1%nat) as -> by lia. destruct Hnb as [_ Hlast].
      pose proof (Hlast 2%nat ltac:(lia)). pose proof (Hlast 3%nat ltac:(lia)).
      simpl in *. repeat split; [congruence..|apply not_elem_of_nil].
    + intros (? & ? & _).
      assert (last_position [pad; bos; eos; unk] bos 1) as Hsecond.
      { split; [done|].
        intros [|[|[|[|?]]]] ?; simpl; first [lia | done | congruence]. }
      by rewrite (last_position_unique _ _ _ _ Hnb Hsecond).
  - split.
    + intros Hz. assert (ne = 2%nat) as -> by lia. destruct Hne as [_ Hlast].
      pose proof (Hlast 3%nat ltac:(lia)). simpl in *. congruence.
    + intros ?.
      assert (last_position [pad; bos; eos; unk] eos 2) as Hthird.
      { split; [done|].
        intros [|[|[|[|?]]]] ?; simpl; first [lia | done | congruence]. }
      by rewrite (last_position_unique _ _ _ _ Hne Hthird).
Qed.

Lemma special_ids_exact_witness :
  ∃ v, Vocab.__init__ "vocab.txt" ["cat"] "<S>" "<S>" "<EOS>" "<UNK>" = Ok v
       ∧ ((Vocab.bos_token_id v).1 = 1 ↔ "<S>" ∉ ["<EOS>"; "<UNK>"])
       ∧ ((Vocab.pad_token_id v).1 = 0 ↔ "<S>" ∉ ["<S>"; "<EOS>"; "<UNK>"]).
Proof.
  eexists. split; [reflexivity|].
  split.
  - exact (proj1 (proj2 (proj2 (special_ids_exact "vocab.txt" ["cat"]
             "<S>" "<S>" "<EOS>" "<UNK>" _ eq_refl)))).
  - exact (proj1 (proj2 (special_ids_exact "vocab.txt" ["cat"]
             "<S>" "<S>" "<EOS>" "<UNK>" _ eq_refl))).
Defined.

(** X6: on a built table the ids 0 to 3 of the id map hold the four
    special strings in the order of [special_tokens], whether or not some
    of them coincide; and the id each accessor returns is below 4 and is
    bound in the id map to the accessor's own string. *)
Theorem special_tokens_head_id_map filename lines pad bos eos unk v :
  Vocab.__init__ filename lines pad bos eos unk = Ok v →
  let id_to_token := defaultdict.items (Vocab._id_to_token_map_py v) in
  (∀ i : nat, (i < 4)%nat →
     id_to_token !! Z.of_nat i = (Vocab.special_tokens v).1 !! i)
  ∧ (0 ≤ (Vocab.pad_token_id v).1 < 4
     ∧ id_to_token !! (Vocab.pad_token_id v).1 = Some pad)
  ∧ (0 ≤ (Vocab.bos_token_id v).1 < 4
     ∧ id_to_token !! (Vocab.bos_token_id v).1 = Some bos)
  ∧ (0 ≤ (Vocab.eos_token_id v).1 < 4
     ∧ id_to_token !! (Vocab.eos_token_id v).1 = Some eos)
  ∧ (0 ≤ (Vocab.unk_token_id v).1 < 4
     ∧ id_to_token !! (Vocab.unk_token_id v).1 = Some unk).
Proof.
  intros [(Hbos & Heos & Hunk & Hpad) ->]%init_Ok id_to_token.
  assert (∀ (i : nat) tok, [pad; bos; eos; unk] !! i = Some tok →
            id_to_token !! Z.of_nat i = Some tok) as Hhead.
  { intros i tok Hi. unfold id_to_token.
    rewrite token_of_built, decide_True, Nat2Z.id by lia.
    unfold combined. rewrite lookup_app_l; [done|].
    by eapply lookup_lt_Some. }
  assert (∀ tok, tok ∈ [pad; bos; eos; unk] → tok ∉ lines →
            0 ≤ (Vocab.token_to_id_getitem tok
                   (built filename lines pad bos eos unk)).1 < 4
            ∧ id_to_token !! (Vocab.token_to_id_getitem tok
                   (built filename lines pad bos eos unk)).1 = Some tok)
    as Hacc.
  { intros tok Htok Hlines.
    destruct (special_getitem_built filename lines pad bos eos unk tok
                Htok Hlines) as (n & [Hn _] & ->).
    cbn [fst]. split; [|by apply Hhead].
    apply lookup_lt_Some in Hn. simpl in Hn. lia. }
  destruct (special_elems pad bos eos unk) as (Hp & Hb & He & Hu).
  split.
  - intros i Hi. cbn [fst Vocab.special_tokens].
    destruct (lookup_lt_is_Some_2 [pad; bos; eos; unk] i) as [tok Htok];
      [simpl; lia|].
    simpl Vocab._pad_token. simpl Vocab._bos_token.
    simpl Vocab._eos_token. simpl Vocab._unk_token.
    rewrite Htok. by apply Hhead.
  - destruct (id_accessors_built (built filename lines pad bos eos unk))
      as (-> & -> & -> & ->).
    repeat split; by apply Hacc.
Qed.

Lemma special_tokens_head_id_map_witness :
  ∃ v, Vocab.__init__ "vocab.txt" ["cat"] "<S>" "<S>" "<EOS>" "<UNK>" = Ok v
       ∧ 0 ≤ (Vocab.pad_token_id v).1 < 4
       ∧ defaultdict.items (Vocab._id_to_token_map_py v)
           !! (Vocab.pad_token_id v).1 = Some "<S>".
Proof.
  eexists. split; [reflexivity|].
  exact (proj1 (proj2 (special_tokens_head_id_map "vocab.txt" ["cat"]
           "<S>" "<S>" "<EOS>" "<UNK>" _ eq_refl))).
Defined.

(** ** Counting entries *)

(** X7: the id map of a built table has an entry for every position of
    the combined sequence, 4 plus the number of lines.  The size, which
    counts the token map, lies between 1 plus the number of distinct lines
    and that number of entries, and reaches it exactly when no string
    occurs twice in the combined sequence. *)
Theorem size_accounting filename lines pad bos eos unk v :
  Vocab.__init__ filename lines pad bos eos unk = Ok v →
  defaultdict.len (Vocab._id_to_token_map_py v) = (4 + length lines)%nat
  ∧ (1 + count_distinct lines ≤ (Vocab.size v).1)%nat
  ∧ ((Vocab.size v).1 ≤ 4 + count_distinct lines)%nat
  ∧ ((Vocab.size v).1
     ≤ defaultdict.len (Vocab._id_to_token_map_py v))%nat
  ∧ ((Vocab.size v).1 = defaultdict.len (Vocab._id_to_token_map_py v)
     ↔ NoDup ([pad; bos; eos; unk] ++ lines)).
Proof.
  intros [(Hbos & Heos & Hunk & Hpad) ->]%init_Ok.
  assert (defaultdict.len
            (Vocab._id_to_token_map_py
               (built filename lines pad bos eos unk))
          = (4 + length lines)%nat) as Hids.
  { unfold built. cbv zeta. unfold Vocab._id_to_token_map_py.
    rewrite entries_len. unfold combined. by rewrite length_app. }
  assert (length (remove_dups (combined pad bos eos unk lines))
          = (length (remove_dups [pad; bos; eos; unk])
             + count_distinct lines)%nat) as Hsplit.
  { unfold combined, count_distinct. apply length_remove_dups_app.
    intros x Hx. rewrite !elem_of_cons in Hx.
    by destruct Hx as [->|[->|[->|[->|?%elem_of_nil]]]]. }
  pose proof (length_remove_dups_le [pad; bos; eos; unk]) as Hle4.
  assert (1 ≤ length (remove_dups [pad; bos; eos; unk]))%nat as Hge1.
  { assert (pad ∈ remove_dups [pad; bos; eos; unk]) as Hin
      by (apply elem_of_remove_dups; by left).
    destruct (remove_dups [pad; bos; eos; unk]); [|simpl; lia].
    by apply elem_of_nil in Hin. }
  pose proof (length_remove_dups_le lines) as Hlel.
  rewrite Hids, size_built. cbn [fst]. rewrite Hsplit.
  change (length [pad; bos; eos; unk]) with 4%nat in Hle4.
  fold (count_distinct lines) in Hlel.
  repeat split; [lia..| |].
  - intros Hlen. apply length_remove_dups_eq. unfold combined in Hsplit.
    rewrite Hsplit, length_app.
    change (length [pad; bos; eos; unk]) with 4%nat. lia.
  - intros Hnd%length_remove_dups_eq. unfold combined in Hsplit.
    rewrite Hsplit, length_app in Hnd.
    change (length [pad; bos; eos; unk]) with 4%nat in Hnd. lia.
Qed.

Lemma size_accounting_witness :
  ∃ v, Vocab.init_default "vocab.txt" ["cat"; "cat"] = Ok v
       ∧ defaultdict.len (Vocab._id_to_token_map_py v)
         = (4 + length ["cat"; "cat"])%nat
       ∧ ((Vocab.size v).1
          ≤ defaultdict.len (Vocab._id_to_token_map_py v))%nat.
Proof.
  eexists. split; [reflexivity|]. split.
  - exact (proj1 (size_accounting "vocab.txt" ["cat"; "cat"]
             "<PAD>" "<BOS>" "<EOS>" "<UNK>" _ eq_refl)).
  - exact (proj1 (proj2 (proj2 (proj2 (size_accounting
             "vocab.txt" ["cat"; "cat"]
             "<PAD>" "<BOS>" "<EOS>" "<UNK>" _ eq_refl))))).
Defined.

(** ** The token map as an inverse *)

(** X8: on a built table the id the token map gives a string is a key
    of the id map, bound there to that string; hence ids lie between 0 and
    3 plus the number of lines, and two different strings never share an
    id. *)
Theorem token_ids_injective filename lines pad bos eos unk v :
  Vocab.__init__ filename lines pad bos eos unk = Ok v →
  let id_to_token := defaultdict.items (Vocab._id_to_token_map_py v) in
  let token_to_id := defaultdict.items (Vocab._token_to_id_map_py v) in
  (∀ t i, token_to_id !! t = Some i →
     0 ≤ i < 4 + Z.of_nat (length lines) ∧ id_to_token !! i = Some t)
  ∧ (∀ t1 t2 i, token_to_id !! t1 = Some i → token_to_id !! t2 = Some i →
       t1 = t2).
Proof.
  intros [_ ->]%init_Ok id_to_token token_to_id.
  assert (∀ t i, token_to_id !! t = Some i →
     0 ≤ i < 4 + Z.of_nat (length lines) ∧ id_to_token !! i = Some t)
    as Hinv.
  { intros t i (n & -> & Hn & _)%id_of_built. split.
    - apply lookup_lt_Some in Hn. unfold combined in Hn.
      rewrite length_app in Hn. simpl in Hn. lia.
    - unfold id_to_token.
      by rewrite token_of_built, decide_True, Nat2Z.id by lia. }
  split; [done|].
  intros t1 t2 i [_ H1]%Hinv [_ H2]%Hinv. congruence.
Qed.

Lemma token_ids_injective_witness :
  ∃ v, Vocab.init_default "vocab.txt" ["cat"; "dog"; "cat"] = Ok v
       ∧ ∀ t1 t2 i,
           defaultdict.items (Vocab._token_to_id_map_py v) !! t1 = Some i →
           defaultdict.items (Vocab._token_to_id_map_py v) !! t2 = Some i →
           t1 = t2.
Proof.
  eexists. split; [reflexivity|].
  exact (proj2 (token_ids_injective "vocab.txt" ["cat"; "dog"; "cat"]
           "<PAD>" "<BOS>" "<EOS>" "<UNK>" _ eq_refl)).
Defined.

(** ** Longer listings *)

(** X9: if construction succeeds on a listing extended by more lines, it
    succeeds on the listing itself, and the two tables agree on what they
    share: every id below 4 plus the number of original lines has the same
    string, and every string that is not among the added lines has the
    same entry in the token map. *)
Theorem ids_stable_under_append filename lines more pad bos eos unk v' :
  Vocab.__init__ filename (lines ++ more) pad bos eos unk = Ok v' →
  ∃ v, Vocab.__init__ filename lines pad bos eos unk = Ok v
       ∧ (∀ i, i < 4 + Z.of_nat (length lines) →
            defaultdict.items (Vocab._id_to_token_map_py v') !! i
            = defaultdict.items (Vocab._id_to_token_map_py v) !! i)
       ∧ (∀ t, t ∉ more →
            defaultdict.items (Vocab._token_to_id_map_py v') !! t
            = defaultdict.items (Vocab._token_to_id_map_py v) !! t).
Proof.
  intros [(Hbos & Heos & Hunk & Hpad) ->]%init_Ok.
  rewrite !not_elem_of_app in Hbos, Heos, Hunk, Hpad.
  exists (built filename lines pad bos eos unk).
  split; [apply init_Ok; tauto|].
  assert (combined pad bos eos unk (lines ++ more)
          = combined pad bos eos unk lines ++ more) as Happ
    by (unfold combined; by rewrite (assoc_L (++))).
  split.
  - intros i Hi. rewrite !token_of_built. case_decide; [|done].
    rewrite Happ. apply lookup_app_l. unfold combined.
    rewrite length_app. simpl. lia.
  - intros t Ht. apply option_eq. intros i. rewrite !id_of_built, Happ.
    split; intros (n & -> & Hn); exists n; (split; [done|]).
    + by apply (last_position_app_inv _ more).
    + by apply last_position_app_l.
Qed.

Lemma ids_stable_under_append_witness :
  ∃ v v', Vocab.init_default "vocab.txt" (["cat"; "dog"] ++ ["emu"]) = Ok v'
          ∧ Vocab.init_default "vocab.txt" ["cat"; "dog"] = Ok v
          ∧ ∀ i, i < 4 + Z.of_nat (length ["cat"; "dog"]) →
              defaultdict.items (Vocab._id_to_token_map_py v') !! i
              = defaultdict.items (Vocab._id_to_token_map_py v) !! i.
Proof.
  destruct (ids_stable_under_append "vocab.txt" ["cat"; "dog"] ["emu"]
              "<PAD>" "<BOS>" "<EOS>" "<UNK>" _ eq_refl)
    as (v & Hv & Hids & _).
  exists v. eexists. split; [reflexivity|]. split; [exact Hv|exact Hids].
Defined.

(** ** Reading the token dictionary at a missing string *)

(** X10: on a built table, indexing the token dictionary at a string
    that is neither a line nor a special string returns 3 and binds the
    string to 3 in the dictionary.  The size is then one more; the id map
    and the other entries of the token map are as before, the four id
    accessors return what they returned before, and reading the string
    again returns 3 without a further change. *)
Theorem stray_read_extends_token_map filename lines pad bos eos unk v tok :
  Vocab.__init__ filename lines pad bos eos unk = Ok v →
  tok ∉ lines → tok ∉ [pad; bos; eos; unk] →
  ∃ v', Vocab.token_to_id_getitem tok v = (3, v')
        ∧ (Vocab.size v').1 = S (Vocab.size v).1
        ∧ Vocab._id_to_token_map_py v' = Vocab._id_to_token_map_py v
        ∧ (∀ t, t ≠ tok →
             defaultdict.items (Vocab._token_to_id_map_py v') !! t
             = defaultdict.items (Vocab._token_to_id_map_py v) !! t)
        ∧ ((Vocab.pad_token_id v').1 = (Vocab.pad_token_id v).1
           ∧ (Vocab.bos_token_id v').1 = (Vocab.bos_token_id v).1
           ∧ (Vocab.eos_token_id v').1 = (Vocab.eos_token_id v).1
           ∧ (Vocab.unk_token_id v').1 = (Vocab.unk_token_id v).1)
        ∧ Vocab.token_to_id_getitem tok v' = (3, v').
Proof.
  intros [(Hbos & Heos & Hunk & Hpad) ->]%init_Ok Hlines Hspecial.
  set (v := built filename lines pad bos eos unk).
  set (d := Vocab._token_to_id_map_py v).
  assert (defaultdict.items d !! tok = None) as Hnone.
  { apply id_of_built_None. unfold combined.
    by intros [?|?]%elem_of_app. }
  assert (defaultdict.default_factory d = 3) as Hdflt
    by apply make_defaultdict_default.
  set (v' := Vocab.Make filename pad bos eos unk
               (Vocab._id_to_token_map_py v) (defaultdict.setitem d tok 3)).
  assert (Vocab.token_to_id_getitem tok v = (3, v')) as Hread.
  { unfold Vocab.token_to_id_getitem, defaultdict.getitem.
    fold d. by rewrite Hnone, Hdflt. }
  assert (∀ t, t ≠ tok →
            defaultdict.items (Vocab._token_to_id_map_py v') !! t
            = defaultdict.items d !! t) as Hother.
  { intros t Ht. simpl. by rewrite lookup_insert_ne. }
  assert (∀ t, t ≠ tok →
            (Vocab.token_to_id_getitem t v').1
            = (Vocab.token_to_id_getitem t v).1) as Hacc.
  { intros t Ht. unfold Vocab.token_to_id_getitem, defaultdict.getitem.
    rewrite (Hother t Ht). fold d.
    destruct (defaultdict.items d !! t); [done|]. simpl. by rewrite Hdflt. }
  rewrite !not_elem_of_cons in Hspecial.
  destruct Hspecial as (? & ? & ? & ? & _).
  exists v'. split; [done|]. split; [|split; [done|]].
  { unfold Vocab.size, mbind, Vocab.M_bind, Vocab.token_to_id_map_py.
    unfold Vocab.gets, mret, Vocab.M_ret, defaultdict.len. cbn [fst].
    simpl. fold d. by apply map_size_insert_None. }
  split; [done|]. split.
  { destruct (id_accessors_built v) as (-> & -> & -> & ->).
    destruct (id_accessors_built v') as (-> & -> & -> & ->).
    repeat split; by apply Hacc. }
  unfold Vocab.token_to_id_getitem, defaultdict.getitem. simpl.
  by rewrite lookup_insert_eq.
Qed.

Lemma stray_read_extends_token_map_witness :
  ∃ v v', Vocab.init_default "vocab.txt" ["cat"; "dog"] = Ok v
          ∧ Vocab.token_to_id_getitem "fish" v = (3, v')
          ∧ (Vocab.size v').1 = S (Vocab.size v).1.
Proof.
  assert ("fish" ∉ ["cat"; "dog"]) as Hlines
    by (apply (bool_decide_unpack _); vm_compute; exact I).
  assert ("fish" ∉ ["<PAD>"; "<BOS>"; "<EOS>"; "<UNK>"]) as Hspecial
    by (apply (bool_decide_unpack _); vm_compute; exact I).
  destruct (stray_read_extends_token_map "vocab.txt" ["cat"; "dog"]
              "<PAD>" "<BOS>" "<EOS>" "<UNK>" _ "fish" eq_refl
              Hlines Hspecial) as (v' & Hread & Hsize & _).
  eexists. exists v'. split; [reflexivity|]. split; [exact Hread|exact Hsize].
Defined.

(** ** Lookups composed *)

Section dict_lookup_compose.
Context {K : Type} `{Countable K} {V : Type} `{Countable V}.
Implicit Types (d : defaultdict K V) (e : defaultdict V K).

Lemma dict_lookup_compose_shape d e (x : nested K) a b :
  shape (dict_lookup e (dict_lookup d x a) b) = shape x.
Proof. by rewrite !dict_lookup_shape. Qed.

Lemma dict_lookup_compose_leaves d e (x : nested K) a b :
  Forall2 (λ k r, dict_lookup e (dict_lookup d (Scalar k) a) b = Scalar r)
          (leaves x) (leaves (dict_lookup e (dict_lookup d x a) b)).
Proof.
  induction x as [k|l IH] using nested_ind.
  { simpl. by repeat constructor. }
  simpl. induction IH as [|y l Hy _ IHl]; simpl; [constructor|].
  by apply Forall2_app.
Qed.

Lemma dict_lookup_there_and_back d e (x : nested K) a b :
  (∀ k, dict_lookup d (dict_lookup e (dict_lookup d (Scalar k) a) b) a
        = dict_lookup d (Scalar k) a) →
  dict_lookup d (dict_lookup e (dict_lookup d x a) b) a = dict_lookup d x a.
Proof.
  intros Hleaf. induction x as [k|l IH] using nested_ind; [apply Hleaf|].
  cbn [dict_lookup]. f_equal. rewrite !List.map_map.
  induction IH as [|y l Hy _ IHl]; [done|]. simpl. by rewrite Hy, IHl.
Qed.
End dict_lookup_compose.

Lemma decode_encode_leaf filename lines pad bos eos unk t :
  unk ∉ lines →
  let v := built filename lines pad bos eos unk in
  dict_lookup (Vocab._id_to_token_map_py v)
    (dict_lookup (Vocab._token_to_id_map_py v) (Scalar t) 3) unk
  = Scalar (if decide (t ∈ combined pad bos eos unk lines) then t else unk).
Proof.
  intros Hunk v. subst v. case_decide as Ht.
  - apply last_position_exists in Ht as [n Hn].
    rewrite (dict_lookup_Some _ _ (Z.of_nat n))
      by (apply id_of_built; by exists n).
    apply dict_lookup_Some.
    rewrite token_of_built, decide_True, Nat2Z.id by lia. apply Hn.
  - rewrite dict_lookup_None by by apply id_of_built_None.
    apply dict_lookup_Some. by rewrite token_of_built.
Qed.

Lemma encode_decode_leaf filename lines pad bos eos unk (i : Z) :
  unk ∉ lines →
  let v := built filename lines pad bos eos unk in
  ∃ t n, dict_lookup (Vocab._id_to_token_map_py v) (Scalar i) unk = Scalar t
         ∧ dict_lookup (Vocab._token_to_id_map_py v) (Scalar t) 3
           = Scalar (Z.of_nat n)
         ∧ last_position (combined pad bos eos unk lines) t n.
Proof.
  intros Hunk v. subst v.
  destruct (defaultdict.items
              (Vocab._id_to_token_map_py
                 (built filename lines pad bos eos unk)) !! i)
    as [t|] eqn:Hi.
  - assert (t ∈ combined pad bos eos unk lines) as [n Hn]%last_position_exists.
    { rewrite token_of_built in Hi.
      case_decide; [|done]. by eapply list_elem_of_lookup_2. }
    exists t, n. split; [by apply dict_lookup_Some|]. split; [|done].
    apply dict_lookup_Some, id_of_built. by exists n.
  - exists unk, 3%nat. split; [by apply dict_lookup_None|].
    pose proof (unk_last_position pad bos eos unk lines Hunk) as Hlast.
    split; [|done]. apply dict_lookup_Some, id_of_built. by exists 3%nat.
Qed.

(** X11: with [dict_lookup] as modelled, mapping nested tokens to ids
    and the ids back to tokens on a built table returns a nested list of
    the same shape, in which every token of the table is itself and every
    other string is the unknown token; the table is unchanged. *)
Theorem decode_encode_normalises filename lines pad bos eos unk v :
  Vocab.__init__ filename lines pad bos eos unk = Ok v →
  ∀ tokens, ∃ back,
    (ids ← Vocab.map_tokens_to_ids_py tokens;
     Vocab.map_ids_to_tokens_py ids) v = (back, v)
    ∧ shape back = shape tokens
    ∧ Forall2 (λ t t', t' = if decide (t ∈ [pad; bos; eos; unk] ++ lines)
                            then t else unk)
              (leaves tokens) (leaves back).
Proof.
  intros [(_ & _ & Hunk & _) ->]%init_Ok tokens.
  set (v := built filename lines pad bos eos unk).
  exists (dict_lookup (Vocab._id_to_token_map_py v)
            (dict_lookup (Vocab._token_to_id_map_py v) tokens 3) unk).
  split; [|split].
  - unfold mbind, Vocab.M_bind. unfold v.
    rewrite map_tokens_to_ids_py_built by done.
    by rewrite map_ids_to_tokens_py_eq.
  - apply dict_lookup_compose_shape.
  - eapply Forall2_impl; [apply dict_lookup_compose_leaves|].
    intros t t' Ht. unfold v in Ht.
    rewrite decode_encode_leaf in Ht by done. by injection Ht as <-.
Qed.

Lemma decode_encode_normalises_witness :
  ∃ v back, Vocab.init_default "vocab.txt" ["cat"; "dog"] = Ok v
    ∧ (ids ← Vocab.map_tokens_to_ids_py
               (Sequence [Scalar "cat"; Scalar "fish"]);
       Vocab.map_ids_to_tokens_py ids) v = (back, v)
    ∧ shape back = shape (Sequence [Scalar "cat"; Scalar "fish"]).
Proof.
  destruct (decode_encode_normalises "vocab.txt" ["cat"; "dog"]
              "<PAD>" "<BOS>" "<EOS>" "<UNK>" _ eq_refl
              (Sequence [Scalar "cat"; Scalar "fish"]))
    as (back & Hback & Hshape & _).
  eexists. exists back. split; [reflexivity|]. split; [exact Hback|exact Hshape].
Defined.

(** X12: with [dict_lookup] as modelled, a second pass through a built
    table changes nothing: ids obtained from tokens, mapped to tokens and
    to ids again, are the same ids, and tokens obtained from ids, mapped to
    ids and to tokens again, are the same tokens, for nested input of any
    shape. *)
Theorem lookups_idempotent filename lines pad bos eos unk v :
  Vocab.__init__ filename lines pad bos eos unk = Ok v →
  (∀ tokens,
     (ids ← Vocab.map_tokens_to_ids_py tokens;
      back ← Vocab.map_ids_to_tokens_py ids;
      Vocab.map_tokens_to_ids_py back) v
     = Vocab.map_tokens_to_ids_py tokens v)
  ∧ (∀ ids,
       (tokens ← Vocab.map_ids_to_tokens_py ids;
        back ← Vocab.map_tokens_to_ids_py tokens;
        Vocab.map_ids_to_tokens_py back) v
       = Vocab.map_ids_to_tokens_py ids v).
Proof.
  intros [(_ & _ & Hunk & _) ->]%init_Ok.
  set (v := built filename lines pad bos eos unk).
  assert (∀ x, Vocab.map_tokens_to_ids_py x v
               = (dict_lookup (Vocab._token_to_id_map_py v) x 3, v)) as Henc
    by (intros x; by apply map_tokens_to_ids_py_built).
  split.
  - intros tokens. unfold mbind, Vocab.M_bind.
    rewrite !Henc, map_ids_to_tokens_py_eq, Henc. f_equal.
    apply dict_lookup_there_and_back. intros t. unfold v.
    rewrite decode_encode_leaf by done. case_decide as Ht; [done|].
    rewrite (dict_lookup_None _ t) by by apply id_of_built_None.
    apply dict_lookup_Some, id_of_built. exists 3%nat.
    split; [done|]. by apply unk_last_position.
  - intros ids. unfold mbind, Vocab.M_bind.
    rewrite !map_ids_to_tokens_py_eq, Henc, map_ids_to_tokens_py_eq. f_equal.
    apply dict_lookup_there_and_back. intros i.
    destruct (encode_decode_leaf filename lines pad bos eos unk i Hunk)
      as (t & n & Hdec & Henc' & [Hn _]).
    fold v in Hdec, Henc'. simpl Vocab._unk_token.
    rewrite Hdec, Henc'. apply dict_lookup_Some. unfold v.
    by rewrite token_of_built, decide_True, Nat2Z.id by lia.
Qed.

Lemma lookups_idempotent_witness :
  ∃ v, Vocab.init_default "vocab.txt" ["cat"; "cat"] = Ok v
    ∧ (tokens ← Vocab.map_ids_to_tokens_py (Sequence [Scalar 4; Scalar 9]);
       back ← Vocab.map_tokens_to_ids_py tokens;
       Vocab.map_ids_to_tokens_py back) v
      = Vocab.map_ids_to_tokens_py (Sequence [Scalar 4; Scalar 9]) v.
Proof.
  eexists. split; [reflexivity|].
  exact (proj2 (lookups_idempotent "vocab.txt" ["cat"; "cat"]
           "<PAD>" "<BOS>" "<EOS>" "<UNK>" _ eq_refl)
           (Sequence [Scalar 4; Scalar 9])).
Defined.
